(** * dnsredir: the request router of the CoreDNS [dnsredir] plugin

    A shallow embedding of [dnsredir.go]: zone matching, the
    select / exchange / retry loop with its wall-clock deadline, the
    failure accounting of [healthCheck], the TTL rewrite and the
    population latch.

    Conventions.
    - Times and durations are integers counting nanoseconds, as Go's
      [time.Duration] does.
    - [int32] and [uint32] values are integers; the wrap-around of
      [atomic.AddInt32] is written out ([wrap32]).
    - Everything the handler touches lives in a [World] that is threaded
      through the code: the clock, the per-host failure counters, the
      per-pool initial-load counters, the process-wide latch, the
      sleeping decay goroutines, and what the handler did (calls to
      [Select], [Exchange] and [WriteMsg], warnings written to the log).
    - Time passes inside [Exchange] only: a call takes the time its
      result says, the bookkeeping around it takes none.  A goroutine
      whose sleep ends while time passes runs at that moment.
    - The two loops of [ServeDNS] take fuel; [None] means that the fuel
      ran out, never that the code returned.
    - Debug-level log lines are not part of the model; warnings are. *)

From stdpp Require Import gmap strings list.

Local Open Scope Z_scope.

(** ** Go primitives *)

Definition wrap32 (z : Z) : Z := (z + 2 ^ 31) mod 2 ^ 32 - 2 ^ 31.

Definition Millisecond : Z := 1000000.
Definition Second : Z := 1000 * Millisecond.

(** A function that either returns a value or panics. *)
Inductive Result (A : Type) : Type :=
| Val (a : A)
| Panic (msg : string).
Arguments Val {A} a.
Arguments Panic {A} msg.

(** The [error] values the handler tells apart.  Go compares them by
    identity, so a transport error that merely prints like one of the two
    sentinels is still an [errOther]. *)
Inductive error : Type :=
| errNoHealthy
| errCachedConnClosed
| errOther (msg : string).

Definition error_message (e : error) : string :=
  match e with
  | errNoHealthy => "no healthy upstream host"
  | errCachedConnClosed => "cached connection was closed by peer"
  | errOther msg => msg
  end.

(** [upstreamErr == errCachedConnClosed] *)
Definition is_errCachedConnClosed (e : option error) : bool :=
  match e with
  | Some errCachedConnClosed => true
  | _ => false
  end.

(** ** The message model of the [dns] library, as far as the router reads
    and writes it *)

Definition RcodeSuccess : Z := 0.
Definition RcodeFormatError : Z := 1.
Definition RcodeServerFailure : Z := 2.
Definition OpcodeQuery : Z := 0.
Definition TypeOPT : Z := 41.

Record RR_Header : Type := {
  Name : string;
  Rrtype : Z;
  Class : Z;
  Ttl : Z          (* uint32 *)
}.

(** A resource record: its header and its type-specific payload. *)
Record RR : Type := {
  Header : RR_Header;
  Rdata : string
}.

Record Question : Type := {
  QName : string;
  Qtype : Z;
  Qclass : Z
}.

Record Msg : Type := {
  Id : Z;
  Response : bool;
  Opcode : Z;
  RecursionDesired : bool;
  CheckingDisabled : bool;
  Truncated : bool;
  Rcode : Z;
  Questions : list Question;
  Answer : list RR;
  Ns : list RR;
  Extra : list RR
}.

(** [new(dns.Msg)] *)
Definition new_Msg : Msg :=
  {| Id := 0; Response := false; Opcode := 0; RecursionDesired := false;
     CheckingDisabled := false; Truncated := false; Rcode := 0;
     Questions := []; Answer := []; Ns := []; Extra := [] |}.

(** Modelled from the spec: [dns.Msg.SetReply] and [dns.Msg.SetRcode]
    belong to the [dns] library and are not under src/.  The spec says the
    synthesized response carries the original query's id and question and
    the given rcode; as in the library, the reply is marked as a response,
    takes the opcode (and for a plain query the RD and CD bits) of the
    request, and copies the first entry of the question section. *)
Definition SetReply (m request : Msg) : Msg :=
  {| Id := Id request;
     Response := true;
     Opcode := Opcode request;
     RecursionDesired :=
       if Opcode request =? OpcodeQuery then RecursionDesired request
       else RecursionDesired m;
     CheckingDisabled :=
       if Opcode request =? OpcodeQuery then CheckingDisabled request
       else CheckingDisabled m;
     Truncated := Truncated m;
     Rcode := RcodeSuccess;
     Questions :=
       match Questions request with
       | [] => Questions m
       | q :: _ => [q]
       end;
     Answer := Answer m; Ns := Ns m; Extra := Extra m |}.

Definition with_Rcode (rcode : Z) (m : Msg) : Msg :=
  {| Id := Id m; Response := Response m; Opcode := Opcode m;
     RecursionDesired := RecursionDesired m;
     CheckingDisabled := CheckingDisabled m;
     Truncated := Truncated m; Rcode := rcode;
     Questions := Questions m; Answer := Answer m; Ns := Ns m;
     Extra := Extra m |}.

Definition SetRcode (m request : Msg) (rcode : Z) : Msg :=
  with_Rcode rcode (SetReply m request).

(** The two methods of [request.Request] the router calls.  They belong to
    CoreDNS, so the router is verified against any implementation. *)
Class RequestLib : Type := {
  (** [state.Name()]: the query name of the request *)
  state_Name : Msg -> string;
  (** [state.Match(reply)]: does the reply answer this request? *)
  state_Match : Msg -> Msg -> bool
}.

(** ** Constants *)

Definition defaultTimeout : Z := 15000 * Millisecond.
Definition defaultFailTimeout : Z := 2000 * Millisecond.
Definition failureCheck : Z := 3.

(** Modelled from the spec: [pluginName] is declared outside src/; the
    plugin is the DNS redirection middleware [dnsredir]. *)
Definition pluginName : string := "dnsredir".

(** [dnsutil.MinimalDefaultTTL] of CoreDNS. *)
Definition MinimalDefaultTTL : Z := 5 * Second.

(** ** The world *)

(** The body of the goroutine [healthCheck] starts, asleep until [wake]:
    the host it was started for and the counter value it captured. *)
Record Task : Type := {
  wake : Z;
  task_host : nat;
  task_fails : Z
}.

(** What the request goroutine did, in order. *)
Inductive Event : Type :=
| EvSelect (pool : nat) (host : option nat)
| EvExchange (host : nat) (err : option error)
| EvAddFails (host : nat) (new : Z)
| EvWriteMsg (m : Msg).

Inductive Warning : Type :=
| WarnRetryWithTCP
| WarnExchangeFailed (e : error).

Record World : Type := {
  now : Z;                      (* time.Now() *)
  fails : gmap nat Z;           (* UpstreamHost.fails, by host *)
  initialCount : gmap nat Z;    (* reloadableUpstream.initialCount, by pool *)
  initialFinished : Z;          (* the package variable *)
  sleeping : list Task;         (* decay goroutines not yet woken *)
  probes : list nat;            (* hosts on which Check() was called *)
  trace : list Event;
  warnings : list Warning
}.

Definition set_now (t : Z) (w : World) : World :=
  {| now := t; fails := fails w; initialCount := initialCount w;
     initialFinished := initialFinished w; sleeping := sleeping w;
     probes := probes w; trace := trace w; warnings := warnings w |}.

Definition set_fails (f : gmap nat Z) (w : World) : World :=
  {| now := now w; fails := f; initialCount := initialCount w;
     initialFinished := initialFinished w; sleeping := sleeping w;
     probes := probes w; trace := trace w; warnings := warnings w |}.

Definition set_initialCount (c : gmap nat Z) (w : World) : World :=
  {| now := now w; fails := fails w; initialCount := c;
     initialFinished := initialFinished w; sleeping := sleeping w;
     probes := probes w; trace := trace w; warnings := warnings w |}.

Definition set_initialFinished (v : Z) (w : World) : World :=
  {| now := now w; fails := fails w; initialCount := initialCount w;
     initialFinished := v; sleeping := sleeping w;
     probes := probes w; trace := trace w; warnings := warnings w |}.

Definition set_sleeping (l : list Task) (w : World) : World :=
  {| now := now w; fails := fails w; initialCount := initialCount w;
     initialFinished := initialFinished w; sleeping := l;
     probes := probes w; trace := trace w; warnings := warnings w |}.

Definition record_probe (h : nat) (w : World) : World :=
  {| now := now w; fails := fails w; initialCount := initialCount w;
     initialFinished := initialFinished w; sleeping := sleeping w;
     probes := probes w ++ [h]; trace := trace w; warnings := warnings w |}.

Definition record (e : Event) (w : World) : World :=
  {| now := now w; fails := fails w; initialCount := initialCount w;
     initialFinished := initialFinished w; sleeping := sleeping w;
     probes := probes w; trace := trace w ++ [e]; warnings := warnings w |}.

Definition warn (m : Warning) (w : World) : World :=
  {| now := now w; fails := fails w; initialCount := initialCount w;
     initialFinished := initialFinished w; sleeping := sleeping w;
     probes := probes w; trace := trace w; warnings := warnings w ++ [m] |}.

(** [atomic.LoadInt32(&uh.fails)]; a counter never written reads 0. *)
Definition load_fails (h : nat) (w : World) : Z := default 0 (fails w !! h).

(** [atomic.LoadInt32(&up.initialCount)] *)
Definition load_initialCount (p : nat) (w : World) : Z :=
  default 0 (initialCount w !! p).

(** [atomic.AddInt32(&uh.fails, delta)]: the new value and the world. *)
Definition AddInt32_fails (h : nat) (delta : Z) (w : World) : Z * World :=
  let v := wrap32 (load_fails h w + delta) in
  (v, set_fails (<[h := v]> (fails w)) w).

(** The goroutine's body after its sleep. *)
Definition run_task (t : Task) (w : World) : World :=
  let w1 := snd (AddInt32_fails (task_host t) (-1) w) in
  if Z.rem (task_fails t) failureCheck =? 0
  then record_probe (task_host t) w1
  else w1.

Definition is_due (t' : Z) (t : Task) : bool := wake t <=? t'.

(** Time passes: the clock moves on by [d] and the goroutines whose sleep
    ended by then run, oldest first. *)
Definition elapse (d : Z) (w : World) : World :=
  let t' := now w + d in
  let due := List.filter (is_due t') (sleeping w) in
  let rest := List.filter (fun t => negb (is_due t' t)) (sleeping w) in
  foldl (fun w t => run_task t w) (set_sleeping rest (set_now t' w)) due.

(** ** Collaborators *)

(** What one call of [Exchange] gives back, and how long it took. *)
Record ExchResult : Type := {
  reply : option Msg;
  err : option error;
  rtt : Z
}.

Record Transport : Type := {
  forceTcp : bool;
  preferUdp : bool
}.

(** [*UpstreamHost]: [hid] stands for the pointer; the mutable counter
    [fails] lives in the world under that key. *)
Record UpstreamHost : Type := {
  hid : nat;
  addr : string;
  transport : Transport;
  Exchange : Msg -> World -> ExchResult
}.

(** [*reloadableUpstream]: [upid] stands for the pointer; the mutable
    [initialCount] lives in the world under that key. *)
Record reloadableUpstream : Type := {
  upid : nat;
  upMatch : string -> bool;
  upSelect : World -> option UpstreamHost;
  maxFails : Z;
  checkInterval : Z
}.

(** The [Upstream] interface: the implementation of this package, or any
    other one (of which the router only ever calls [Match]). *)
Inductive Upstream : Type :=
| Reloadable (u : reloadableUpstream)
| Foreign (m : string -> bool).

Definition Match (up : Upstream) (name : string) : bool :=
  match up with
  | Reloadable u => upMatch u name
  | Foreign m => m name
  end.

(** What a handler's [ServeDNS] comes back with. *)
Inductive Outcome : Type :=
| Returned (rcode : Z) (e : option error)
| Panicked (msg : string).

Definition Handler : Type := Msg -> World -> Outcome * World.

Record Dnsredir : Type := {
  Next : option Handler;
  Upstreams : option (list Upstream)
}.

Definition Dnsredir_Name (r : Dnsredir) : string := pluginName.

(** [plugin.NextOrFailure] of CoreDNS: run the next handler of the chain,
    or fail when the chain ends here. *)
Definition NextOrFailure (name : string) (next : option Handler)
    (req : Msg) (w : World) : Outcome * World :=
  match next with
  | Some h => h req w
  | None =>
      (Returned RcodeServerFailure
         (Some (errOther ("plugin/" +:+ name +:+ ": no next plugin found"))), w)
  end.

(** ** Helpers of the package that are not under src/ *)

Definition dot : Ascii.ascii := Ascii.ascii_of_nat 46.

(** Modelled from the spec: [removeTrailingDot] is declared outside src/;
    the spec's normalisation strips the trailing dot of a name. *)
Fixpoint removeTrailingDot (s : string) : string :=
  match s with
  | EmptyString => EmptyString
  | String c EmptyString => if Ascii.eqb c dot then EmptyString else s
  | String c s' => String c (removeTrailingDot s')
  end.

(** Modelled from the spec: [MinUint32] is declared outside src/; the
    spec's clamping is [ttl = min(ttl, ceiling)]. *)
Definition MinUint32 (a b : Z) : Z := Z.min a b.

(** ** match *)

(** The [for _, up := range *r.Upstreams] of [match]. *)
Fixpoint match_scan (ups : list Upstream) (name : string) : option Upstream :=
  match ups with
  | [] => None
  | up :: rest => if Match up name then Some up else match_scan rest name
  end.

Definition since (w : World) (t : Z) : Z := now w - t.

(** [match] is a keyword here, hence the underscore.  The second component
    is the lookup time; the clock of the model stands still while the
    pools are scanned. *)
Definition match_ (r : Dnsredir) (name : string) (w : World)
    : Result (option Upstream * Z) :=
  match Upstreams r with
  | None => Panic "Why Dnsredir.Upstreams is nil?!"
  | Some ups =>
      let name :=
        if (1 <? String.length name)%nat then removeTrailingDot name
        else name in
      let t := now w in
      match match_scan ups name with
      | Some up => Val (Some up, since w t)
      | None => Val (None, since w t)
      end
  end.

(** ** rewriteToMinimalTTLs *)

Definition set_Ttl (ttl : Z) (r : RR) : RR :=
  {| Header := {| Name := Name (Header r); Rrtype := Rrtype (Header r);
                  Class := Class (Header r); Ttl := ttl |};
     Rdata := Rdata r |}.

Definition clamp (minimalTTL : Z) (r : RR) : RR :=
  set_Ttl (MinUint32 (Ttl (Header r)) minimalTTL) r.

Definition clamp_extra (minimalTTL : Z) (r : RR) : RR :=
  if negb (Rrtype (Header r) =? TypeOPT) then clamp minimalTTL r else r.

(** The records of a parsed message are separate objects, so the three
    in-place loops are three maps. *)
Definition rewriteToMinimalTTLs (reply : Msg) (minimalTTL : Z) : Msg :=
  {| Id := Id reply; Response := Response reply; Opcode := Opcode reply;
     RecursionDesired := RecursionDesired reply;
     CheckingDisabled := CheckingDisabled reply;
     Truncated := Truncated reply; Rcode := Rcode reply;
     Questions := Questions reply;
     Answer := map (clamp minimalTTL) (Answer reply);
     Ns := map (clamp minimalTTL) (Ns reply);
     Extra := map (clamp_extra minimalTTL) (Extra reply) |}.

(** [r'] is [r] with its TTL brought down to the ceiling [C]: no other
    field differs. *)
Definition clamped (C : Z) (r r' : RR) : Prop :=
  Ttl (Header r') = Z.min (Ttl (Header r)) C /\
  Name (Header r') = Name (Header r) /\
  Rrtype (Header r') = Rrtype (Header r) /\
  Class (Header r') = Class (Header r) /\
  Rdata r' = Rdata r.

(** ** healthCheck *)

Definition spawn (t : Task) (w : World) : World :=
  set_sleeping (sleeping w ++ [t]) w.

Definition healthCheck (r : reloadableUpstream) (uh : UpstreamHost)
    (w : World) : World :=
  if (checkInterval r =? 0) || (maxFails r =? 0) then w
  else
    let failTimeout := defaultFailTimeout in
    let '(fails, w1) := AddInt32_fails (hid uh) 1 w in
    spawn {| wake := now w1 + failTimeout; task_host := hid uh;
             task_fails := fails |}
          (record (EvAddFails (hid uh) fails) w1).

(** ** urlInitialInProgress *)

(** The loop over the pools: [true] as soon as a pool is still loading.
    The unchecked type assertion panics on a foreign pool. *)
Fixpoint initial_scan (ups : list Upstream) (w : World) : Result bool :=
  match ups with
  | [] => Val false
  | Foreign _ :: _ =>
      Panic "interface conversion: Upstream is not *reloadableUpstream"
  | Reloadable up :: rest =>
      if negb (load_initialCount (upid up) w =? 0) then Val true
      else initial_scan rest w
  end.

Definition urlInitialInProgress (r : Dnsredir) (w : World)
    : Result bool * World :=
  if negb (initialFinished w =? 0) then (Val false, w)
  else
    match Upstreams r with
    | None => (Panic "nil pointer dereference", w)
    | Some ups =>
        match initial_scan ups w with
        | Panic m => (Panic m, w)
        | Val true => (Val true, w)
        | Val false => (Val false, set_initialFinished 1 w)
        end
    end.

(** ** ServeDNS *)

(** One call of [host.Exchange]: time passes, then the call returns. *)
Definition do_Exchange (host : UpstreamHost) (req : Msg) (w : World)
    : ExchResult * World :=
  let res := Exchange host req w in
  (res, record (EvExchange (hid host) (err res)) (elapse (rtt res) w)).

Definition is_truncated (m : option Msg) : bool :=
  match m with
  | Some m => Truncated m
  | None => false
  end.

(** Lines 101-103: the warning about a truncated reply ([reply != nil &&
    reply.Truncated && !forceTcp && preferUdp]); nothing else is done
    about it. *)
Definition note_truncation (host : UpstreamHost) (res : ExchResult)
    (w : World) : World :=
  if is_truncated (reply res) && negb (forceTcp (transport host))
     && preferUdp (transport host)
  then warn WarnRetryWithTCP w else w.

(** The inner [for { ... }]: it leaves with the first result that is not
    the closed-cached-connection error. *)
Fixpoint exchange_loop (fuel : nat) (host : UpstreamHost) (req : Msg)
    (w : World) : option (ExchResult * World) :=
  match fuel with
  | O => None
  | S fuel =>
      let '(res, w1) := do_Exchange host req w in
      if is_errCachedConnClosed (err res) then
        exchange_loop fuel host req w1
      else Some (res, note_truncation host res w1)
  end.

(** Lines 108-111 of [ServeDNS]: a transport error counts against the
    host when the pool has a failure threshold. *)
Definition on_failure (upstream : reloadableUpstream) (host : UpstreamHost)
    (e : error) (w : World) : World :=
  if negb (maxFails upstream =? 0)
  then healthCheck upstream host (warn (WarnExchangeFailed e) w)
  else w.

Section Router.

Context `{RequestLib}.

(** Lines 115-128 of [ServeDNS]: what happens to a reply that came back
    without a transport error. *)
Definition deliver (r : Dnsredir) (req reply : Msg) (w : World)
    : Outcome * World :=
  if negb (state_Match req reply) then
    let formerr := SetRcode new_Msg req RcodeFormatError in
    (Returned 0 None, record (EvWriteMsg formerr) w)
  else
    match urlInitialInProgress r w with
    | (Panic m, w1) => (Panicked m, w1)
    | (Val true, w1) =>
        let reply := rewriteToMinimalTTLs reply (MinimalDefaultTTL / Second) in
        (Returned 0 None, record (EvWriteMsg reply) w1)
    | (Val false, w1) => (Returned 0 None, record (EvWriteMsg reply) w1)
    end.

(** The outer [for time.Now().Before(deadline)] with what follows it.
    [upstreamErr] is the variable of that name; [reply] is dead whenever
    the loop goes round again.  A nil reply without an error makes
    [state.Match] dereference nil. *)
Fixpoint serve_loop (fuel : nat) (r : Dnsredir) (upstream : reloadableUpstream)
    (req : Msg) (deadline : Z) (upstreamErr : option error) (w : World)
    : option (Outcome * World) :=
  match fuel with
  | O => None
  | S fuel =>
      if now w <? deadline then
        match upSelect upstream w with
        | None =>
            Some (Returned RcodeServerFailure (Some errNoHealthy),
                  record (EvSelect (upid upstream) None) w)
        | Some host =>
            let w0 := record (EvSelect (upid upstream) (Some (hid host))) w in
            match exchange_loop fuel host req w0 with
            | None => None
            | Some (res, w1) =>
                match err res with
                | Some e =>
                    serve_loop fuel r upstream req deadline (Some e)
                      (on_failure upstream host e w1)
                | None =>
                    match reply res with
                    | None => Some (Panicked "nil pointer dereference", w1)
                    | Some reply => Some (deliver r req reply w1)
                    end
                end
            end
        end
      else
        match upstreamErr with
        | None =>
            Some (Panicked
                    "Why upstreamErr is nil?! Are you in a debugger or your machine running slow?",
                  w)
        | Some e => Some (Returned RcodeServerFailure (Some e), w)
        end
  end.

Definition ServeDNS (fuel : nat) (r : Dnsredir) (req : Msg) (w : World)
    : option (Outcome * World) :=
  let name := state_Name req in
  match match_ r name w with
  | Panic m => Some (Panicked m, w)
  | Val (None, _) => Some (NextOrFailure (Dnsredir_Name r) (Next r) req w)
  | Val (Some (Foreign _), _) =>
      Some (Panicked "Why the matched Upstream isn't a reloadableUpstream", w)
  | Val (Some (Reloadable upstream), _) =>
      let deadline := now w + defaultTimeout in
      serve_loop fuel r upstream req deadline None w
  end.

End Router.

(** ** Counting what happened *)

Definition is_EvExchange (e : Event) : bool :=
  match e with EvExchange _ _ => true | _ => false end.

Definition is_EvWriteMsg (e : Event) : bool :=
  match e with EvWriteMsg _ => true | _ => false end.

(** How many times [Exchange] has been called so far. *)
Definition exchanges (w : World) : nat :=
  length (List.filter is_EvExchange (trace w)).

(** The replies written so far. *)
Definition writes (w : World) : list Event :=
  List.filter is_EvWriteMsg (trace w).

(** The error of the latest call of [Exchange], if there was a call. *)
Fixpoint last_exchange_err (tr : list Event) : option (option error) :=
  match tr with
  | [] => None
  | e :: rest =>
      match last_exchange_err rest with
      | Some x => Some x
      | None =>
          match e with
          | EvExchange _ x => Some x
          | _ => None
          end
      end
  end.

(** ** OnStartup and OnShutdown *)

(** [Start] and [Stop] of the [Upstream] interface: what they return and
    what they do to the world is the business of the pool. *)
Class Lifecycle : Type := {
  Start : Upstream -> World -> option error * World;
  Stop : Upstream -> World -> option error * World
}.

Section Lifecycle.

Context `{Lifecycle}.

(** The [for _, up := range *r.Upstreams] of [OnStartup]: the first error
    is returned on the spot. *)
Fixpoint start_all (ups : list Upstream) (w : World) : option error * World :=
  match ups with
  | [] => (None, w)
  | up :: rest =>
      match Start up w with
      | (Some err, w1) => (Some err, w1)
      | (None, w1) => start_all rest w1
      end
  end.

Definition OnStartup (r : Dnsredir) (w : World)
    : Result (option error) * World :=
  match Upstreams r with
  | None => (Panic "nil pointer dereference", w)
  | Some ups => let '(e, w1) := start_all ups w in (Val e, w1)
  end.

(** The same loop of [OnShutdown], over [Stop]. *)
Fixpoint stop_all (ups : list Upstream) (w : World) : option error * World :=
  match ups with
  | [] => (None, w)
  | up :: rest =>
      match Stop up w with
      | (Some err, w1) => (Some err, w1)
      | (None, w1) => stop_all rest w1
      end
  end.

Definition OnShutdown (r : Dnsredir) (w : World)
    : Result (option error) * World :=
  match Upstreams r with
  | None => (Panic "nil pointer dereference", w)
  | Some ups => let '(e, w1) := stop_all ups w in (Val e, w1)
  end.

End Lifecycle.

(** ** Bursts of failures *)


(** ** The order of the calls of a request *)

(** Where a request stands: about to select, a host selected and not yet
    heard from, an answer in hand, a failure to be counted, a reply
    written, or no host to be had. *)
Inductive Phase : Type :=
| Idle
| Picked (h : nat)
| Answered (h : nat)
| Failed (h : nat)
| Written
| NoHost.

(** Is a failed exchange counted against the host?  The two tests of
    lines 108 and 179 together. *)
Definition counting (u : reloadableUpstream) : bool :=
  negb (maxFails u =? 0) && negb (checkInterval u =? 0).

(** The phase after an exchange with the selected host [h]. *)
Definition exchanged (count : bool) (h : nat) (e : option error) : Phase :=
  match e with
  | None => Answered h
  | Some errCachedConnClosed => Picked h
  | Some _ => if count then Failed h else Idle
  end.

(** The one event that may come next in each phase; [None] is a call out
    of order. *)
Definition protocol_step (pool : nat) (count : bool) (p : Phase) (e : Event)
    : option Phase :=
  match p, e with
  | Idle, EvSelect p' (Some h) =>
      if (pool =? p')%nat then Some (Picked h) else None
  | Idle, EvSelect p' None => if (pool =? p')%nat then Some NoHost else None
  | Picked h, EvExchange h' x =>
      if (h =? h')%nat then Some (exchanged count h x) else None
  | Failed h, EvAddFails h' _ => if (h =? h')%nat then Some Idle else None
  | Answered _, EvWriteMsg _ => Some Written
  | _, _ => None
  end.

Fixpoint protocol (pool : nat) (count : bool) (p : Phase) (evs : list Event)
    : option Phase :=
  match evs with
  | [] => Some p
  | e :: rest =>
      match protocol_step pool count p e with
      | Some q => protocol pool count q rest
      | None => None
      end
  end.

(** The panic of line 132. *)
Definition why_nil : string :=
  "Why upstreamErr is nil?! Are you in a debugger or your machine running slow?".

(** ** A small deployment to run the router on *)

Module Sample.

Definition to_lower_ascii (c : Ascii.ascii) : Ascii.ascii :=
  let n := Ascii.nat_of_ascii c in
  if ((65 <=? n) && (n <=? 90))%nat then Ascii.ascii_of_nat (n + 32) else c.

Fixpoint ToLower (s : string) : string :=
  match s with
  | EmptyString => EmptyString
  | String c s' => String (to_lower_ascii c) (ToLower s')
  end.

(** The methods of CoreDNS's [request.Request]: the name is the lower-cased
    name of the first question, the root when there is none; a reply
    matches when it is a response with one question of that name and
    type. *)
Definition ReqName (req : Msg) : string :=
  match Questions req with
  | [] => "."
  | q :: _ => ToLower (QName q)
  end.

Definition ReqQType (req : Msg) : Z :=
  match Questions req with
  | [] => 0
  | q :: _ => Qtype q
  end.

Definition ReqMatch (req reply : Msg) : bool :=
  match Questions reply with
  | [q] =>
      Response reply && String.eqb (ToLower (QName q)) (ReqName req)
      && (Qtype q =? ReqQType req)
  | _ => false
  end.

Definition coredns : RequestLib :=
  {| state_Name := ReqName; state_Match := ReqMatch |}.

Definition TypeA : Z := 1.

Definition question : Question :=
  {| QName := "www.example.org."; Qtype := TypeA; Qclass := 1 |}.

Definition query : Msg :=
  {| Id := 4711; Response := false; Opcode := OpcodeQuery;
     RecursionDesired := true; CheckingDisabled := false;
     Truncated := false; Rcode := 0; Questions := [question];
     Answer := []; Ns := []; Extra := [] |}.

Definition rr (type ttl : Z) : RR :=
  {| Header := {| Name := "www.example.org."; Rrtype := type; Class := 1;
                  Ttl := ttl |};
     Rdata := "192.0.2.1" |}.

(** An answer to [query] with the TTLs of the spec's example, and an OPT
    record whose TTL field holds flags. *)
Definition answer : Msg :=
  {| Id := 4711; Response := true; Opcode := OpcodeQuery;
     RecursionDesired := true; CheckingDisabled := false;
     Truncated := false; Rcode := RcodeSuccess; Questions := [question];
     Answer := [rr TypeA 10; rr TypeA 500; rr TypeA 3600];
     Ns := [rr 2 86400];
     Extra := [rr TypeA 7200; rr TypeOPT 32768] |}.

(** The same answer, cut short. *)
Definition truncated_answer : Msg :=
  {| Id := 4711; Response := true; Opcode := OpcodeQuery;
     RecursionDesired := true; CheckingDisabled := false;
     Truncated := true; Rcode := RcodeSuccess; Questions := [question];
     Answer := []; Ns := []; Extra := [] |}.

(** An answer to some other question. *)
Definition stray : Msg :=
  {| Id := 4711; Response := true; Opcode := OpcodeQuery;
     RecursionDesired := true; CheckingDisabled := false;
     Truncated := false; Rcode := RcodeSuccess;
     Questions := [{| QName := "mail.example.org."; Qtype := TypeA;
                      Qclass := 1 |}];
     Answer := [rr TypeA 60]; Ns := []; Extra := [] |}.

Definition udp : Transport := {| forceTcp := false; preferUdp := false |}.
Definition udp_first : Transport := {| forceTcp := false; preferUdp := true |}.

Definition ok (m : Msg) : ExchResult :=
  {| reply := Some m; err := None; rtt := 20 * Millisecond |}.

Definition closed : ExchResult :=
  {| reply := None; err := Some errCachedConnClosed; rtt := Millisecond |}.

Definition timeout : ExchResult :=
  {| reply := None; err := Some (errOther "i/o timeout"); rtt := 4 * Second |}.

(** A host that answers. *)
Definition good_host : UpstreamHost :=
  {| hid := 1; addr := "192.0.2.53:53"; transport := udp;
     Exchange := fun _ _ => ok answer |}.

(** A host whose cached connections were closed by the peer: the first
    [K] exchanges of the request fail on one of them, the next one gets
    through. *)
Definition flaky_host (K : nat) : UpstreamHost :=
  {| hid := 2; addr := "192.0.2.54:53"; transport := udp;
     Exchange := fun _ w => if (exchanges w <? K)%nat then closed else ok answer |}.

(** A host that reports the closed cached connection for ever. *)
Definition closed_host : UpstreamHost :=
  {| hid := 3; addr := "192.0.2.55:53"; transport := udp;
     Exchange := fun _ _ => closed |}.

(** A host that never answers in time. *)
Definition dead_host : UpstreamHost :=
  {| hid := 4; addr := "192.0.2.56:53"; transport := udp;
     Exchange := fun _ _ => timeout |}.

(** A host that answers something else. *)
Definition confused_host : UpstreamHost :=
  {| hid := 5; addr := "192.0.2.57:53"; transport := udp;
     Exchange := fun _ _ => ok stray |}.

(** Hosts whose answers are cut short, over either transport setting. *)
Definition short_host (t : Transport) : UpstreamHost :=
  {| hid := 6; addr := "192.0.2.58:53"; transport := t;
     Exchange := fun _ _ => ok truncated_answer |}.

Definition zone_example (name : string) : bool :=
  String.eqb name "www.example.org".

(** A pool for [www.example.org] that always selects [h]. *)
Definition pool (id : nat) (h : option UpstreamHost) (max_fails interval : Z)
    : reloadableUpstream :=
  {| upid := id; upMatch := zone_example; upSelect := fun _ => h;
     maxFails := max_fails; checkInterval := interval |}.

Definition router (ups : list Upstream) : Dnsredir :=
  {| Next := None; Upstreams := Some ups |}.

(** Pool 7 with one host, a failure threshold of 3 and a health check
    every 10 seconds, and the router in front of it. *)
Definition pool_of (h : UpstreamHost) : reloadableUpstream :=
  pool 7 (Some h) 3 (10 * Second).

Definition serving (h : UpstreamHost) : Dnsredir :=
  router [Reloadable (pool_of h)].

(** The same pool without health checks: a threshold, but no interval. *)
Definition unchecked_pool (h : UpstreamHost) : reloadableUpstream :=
  pool 7 (Some h) 3 0.

(** A pool that has run out of healthy hosts. *)
Definition empty_pool : reloadableUpstream := pool 7 None 3 (10 * Second).

(** The world at start-up: midnight, nothing counted, nothing done. *)
Definition world0 : World :=
  {| now := 0; fails := ∅; initialCount := ∅; initialFinished := 0;
     sleeping := []; probes := []; trace := []; warnings := [] |}.

(** The same with pool 7 still loading its name list. *)
Definition loading : World :=
  set_initialCount (<[7%nat := 1]> ∅) world0.

(** The world in which the first attempt of a request on [h], selected
    from pool 7 in [w], has come back. *)
Definition first_try (h : UpstreamHost) (w : World) : World :=
  let w0 := record (EvSelect 7 (Some (hid h))) w in
  note_truncation h (Exchange h query w0) (do_Exchange h query w0).2.

(** The same once the failure of that attempt on the host that never
    answers in time has been accounted for. *)
Definition first_failure : World :=
  on_failure (pool_of dead_host) dead_host (errOther "i/o timeout")
    (first_try dead_host world0).

(** A life cycle for the pools: starting a pool begins the loading of its
    name list, stopping it forgets the count; pool 9 can do neither. *)
Definition begin_loading (up : Upstream) (w : World) : option error * World :=
  match up with
  | Reloadable u =>
      if (upid u =? 9)%nat then (Some (errOther "cannot load"), w)
      else (None, set_initialCount (<[upid u := 1]> (initialCount w)) w)
  | Foreign _ => (None, w)
  end.

Definition forget_loading (up : Upstream) (w : World) : option error * World :=
  match up with
  | Reloadable u =>
      if (upid u =? 9)%nat then (Some (errOther "cannot stop"), w)
      else (None, set_initialCount (delete (upid u) (initialCount w)) w)
  | Foreign _ => (None, w)
  end.

Definition lifecycle : Lifecycle :=
  {| Start := begin_loading; Stop := forget_loading |}.

End Sample.

(** * Properties *)

(** ** The world under the passage of time *)

Lemma foldl_run_task_proj {A : Type} (f : World -> A) :
  (forall t w, f (run_task t w) = f w) ->
  forall l w, f (foldl (fun w t => run_task t w) w l) = f w.
Proof.
  intros Hf l. induction l as [|t l IH]; intros w; simpl; [done|].
  by rewrite IH, Hf.
Qed.

Ltac run_task_proj :=
  intros; unfold run_task; simpl;
  match goal with |- context [if ?b then _ else _] => destruct b end; done.

Lemma elapse_trace d w : trace (elapse d w) = trace w.
Proof. unfold elapse. rewrite foldl_run_task_proj; [done | run_task_proj]. Qed.

Lemma elapse_now d w : now (elapse d w) = now w + d.
Proof. unfold elapse. rewrite foldl_run_task_proj; [done | run_task_proj]. Qed.

Lemma elapse_warnings d w : warnings (elapse d w) = warnings w.
Proof. unfold elapse. rewrite foldl_run_task_proj; [done | run_task_proj]. Qed.

Lemma elapse_initialFinished d w :
  initialFinished (elapse d w) = initialFinished w.
Proof. unfold elapse. rewrite foldl_run_task_proj; [done | run_task_proj]. Qed.

Lemma elapse_initialCount d w : initialCount (elapse d w) = initialCount w.
Proof. unfold elapse. rewrite foldl_run_task_proj; [done | run_task_proj]. Qed.

(** With no goroutine asleep, time only moves the clock. *)
Lemma elapse_quiet d w :
  sleeping w = [] -> elapse d w = set_sleeping [] (set_now (now w + d) w).
Proof. intros Hs. unfold elapse. by rewrite Hs. Qed.

(** ** One call of [Exchange] *)

Lemma do_Exchange_res host req w : (do_Exchange host req w).1 = Exchange host req w.
Proof. done. Qed.

Lemma do_Exchange_trace host req w :
  trace (do_Exchange host req w).2 =
  trace w ++ [EvExchange (hid host) (err (Exchange host req w))].
Proof. unfold do_Exchange. simpl. by rewrite elapse_trace. Qed.

Lemma do_Exchange_now host req w :
  now (do_Exchange host req w).2 = now w + rtt (Exchange host req w).
Proof. unfold do_Exchange. simpl. by rewrite elapse_now. Qed.

Lemma do_Exchange_warnings host req w :
  warnings (do_Exchange host req w).2 = warnings w.
Proof. unfold do_Exchange. simpl. by rewrite elapse_warnings. Qed.

Lemma do_Exchange_initialFinished host req w :
  initialFinished (do_Exchange host req w).2 = initialFinished w.
Proof. unfold do_Exchange. simpl. by rewrite elapse_initialFinished. Qed.

Lemma do_Exchange_quiet host req w :
  sleeping w = [] ->
  fails (do_Exchange host req w).2 = fails w /\
  sleeping (do_Exchange host req w).2 = [].
Proof. intros Hs. unfold do_Exchange. simpl. by rewrite elapse_quiet. Qed.

Lemma exchanges_app_exchange w w' h e :
  trace w' = trace w ++ [EvExchange h e] -> exchanges w' = S (exchanges w).
Proof.
  intros Ht. unfold exchanges. rewrite Ht, List.filter_app, length_app.
  simpl. lia.
Qed.

Lemma do_Exchange_exchanges host req w :
  exchanges (do_Exchange host req w).2 = S (exchanges w).
Proof. eapply exchanges_app_exchange, do_Exchange_trace. Qed.

Lemma is_closed_Some e :
  is_errCachedConnClosed e = true <-> e = Some errCachedConnClosed.
Proof.
  split; [|by intros ->].
  destruct e as [[]|]; simpl; congruence.
Qed.

(** ** The inner loop *)

Lemma exchange_loop_unfold fuel host req w :
  exchange_loop (S fuel) host req w =
  if is_errCachedConnClosed (err (Exchange host req w))
  then exchange_loop fuel host req (do_Exchange host req w).2
  else Some (Exchange host req w,
             note_truncation host (Exchange host req w)
               (do_Exchange host req w).2).
Proof. done. Qed.

Lemma note_truncation_trace host res w :
  trace (note_truncation host res w) = trace w.
Proof. unfold note_truncation. by case_match. Qed.

Lemma note_truncation_now host res w :
  now (note_truncation host res w) = now w.
Proof. unfold note_truncation. by case_match. Qed.

Lemma note_truncation_fails host res w :
  fails (note_truncation host res w) = fails w.
Proof. unfold note_truncation. by case_match. Qed.

Lemma note_truncation_sleeping host res w :
  sleeping (note_truncation host res w) = sleeping w.
Proof. unfold note_truncation. by case_match. Qed.

Lemma note_truncation_initialFinished host res w :
  initialFinished (note_truncation host res w) = initialFinished w.
Proof. unfold note_truncation. by case_match. Qed.

(** A result other than the closed cached connection ends the inner loop
    at once. *)
Lemma exchange_loop_leaves fuel host req w :
  is_errCachedConnClosed (err (Exchange host req w)) = false ->
  exchange_loop (S fuel) host req w =
  Some (Exchange host req w,
        note_truncation host (Exchange host req w) (do_Exchange host req w).2).
Proof. intros Hc. by rewrite exchange_loop_unfold, Hc. Qed.

(** [K] closed cached connections, then something else: the loop calls
    [Exchange] on the host [K + 1] times and does nothing besides. *)
Lemma exchange_loop_closed host req res :
  is_errCachedConnClosed (err res) = false ->
  forall K fuel w,
    (forall w', (exchanges w <= exchanges w' < exchanges w + K)%nat ->
                err (Exchange host req w') = Some errCachedConnClosed) ->
    (forall w', exchanges w' = (exchanges w + K)%nat ->
                Exchange host req w' = res) ->
    (K < fuel)%nat ->
    exists w1,
      exchange_loop fuel host req w = Some (res, w1) /\
      trace w1 =
        trace w
        ++ replicate K (EvExchange (hid host) (Some errCachedConnClosed))
        ++ [EvExchange (hid host) (err res)] /\
      (sleeping w = [] -> fails w1 = fails w /\ sleeping w1 = []).
Proof.
  intros Hres K. induction K as [|K IH]; intros fuel w Hclosed Hthen Hfuel.
  - destruct fuel as [|fuel]; [lia|].
    assert (Exchange host req w = res) as Hw by (apply Hthen; lia).
    rewrite exchange_loop_leaves by (by rewrite Hw).
    rewrite Hw. eexists. split; [done|]. split.
    + rewrite note_truncation_trace, do_Exchange_trace, Hw. done.
    + intros Hs. rewrite note_truncation_fails, note_truncation_sleeping.
      by apply do_Exchange_quiet.
  - destruct fuel as [|fuel]; [lia|].
    assert (err (Exchange host req w) = Some errCachedConnClosed) as Hw
      by (apply Hclosed; lia).
    rewrite exchange_loop_unfold, Hw. cbn [is_errCachedConnClosed].
    destruct (IH fuel (do_Exchange host req w).2) as (w1 & Hrun & Htr & Hq).
    + intros w' Hw'. rewrite do_Exchange_exchanges in Hw'.
      apply Hclosed. lia.
    + intros w' Hw'. rewrite do_Exchange_exchanges in Hw'.
      apply Hthen. lia.
    + lia.
    + exists w1. split; [done|]. split.
      * rewrite Htr, do_Exchange_trace, Hw. simpl. by rewrite <- app_assoc.
      * intros Hs. destruct (do_Exchange_quiet host req w Hs) as [Hf Hsl].
        destruct (Hq Hsl) as [Hf1 Hsl1]. split; congruence.
Qed.

(** With [K] closed cached connections ahead, fuel for [K] calls is not
    enough. *)
Lemma exchange_loop_starves host req :
  forall K fuel w,
    (forall w', (exchanges w <= exchanges w' < exchanges w + K)%nat ->
                err (Exchange host req w') = Some errCachedConnClosed) ->
    (fuel <= K)%nat ->
    exchange_loop fuel host req w = None.
Proof.
  intros K. induction K as [|K IH]; intros fuel w Hclosed Hfuel.
  - by replace fuel with 0%nat by lia.
  - destruct fuel as [|fuel]; [done|].
    rewrite exchange_loop_unfold.
    rewrite (Hclosed w) by lia. cbn [is_errCachedConnClosed].
    apply IH; [|lia].
    intros w' Hw'. rewrite do_Exchange_exchanges in Hw'. apply Hclosed. lia.
Qed.

Lemma exchange_loop_keeps fuel host req :
  forall w res w',
    exchange_loop fuel host req w = Some (res, w') ->
    writes w' = writes w /\ initialFinished w' = initialFinished w.
Proof.
  induction fuel as [|fuel IH]; intros w res w' Hrun; [done|].
  rewrite exchange_loop_unfold in Hrun.
  assert (writes (do_Exchange host req w).2 = writes w) as Hwr.
  { unfold writes. rewrite do_Exchange_trace, List.filter_app. simpl.
    by rewrite app_nil_r. }
  destruct (is_errCachedConnClosed _).
  - apply IH in Hrun as [-> ->].
    by rewrite Hwr, do_Exchange_initialFinished.
  - assert (w' = note_truncation host (Exchange host req w)
                   (do_Exchange host req w).2) as -> by congruence.
    unfold writes in *.
    by rewrite note_truncation_trace, note_truncation_initialFinished,
      do_Exchange_initialFinished.
Qed.

(** ** healthCheck and the failure branch *)

Lemma healthCheck_off r uh w :
  checkInterval r = 0 \/ maxFails r = 0 -> healthCheck r uh w = w.
Proof.
  intros Hoff. unfold healthCheck.
  destruct Hoff as [-> | ->]; simpl; [done|].
  by rewrite orb_true_r.
Qed.

Lemma healthCheck_on r uh w :
  checkInterval r <> 0 -> maxFails r <> 0 ->
  healthCheck r uh w =
  let v := wrap32 (load_fails (hid uh) w + 1) in
  spawn {| wake := now w + defaultFailTimeout; task_host := hid uh;
           task_fails := v |}
    (record (EvAddFails (hid uh) v)
       (set_fails (<[hid uh := v]> (fails w)) w)).
Proof.
  intros Hi Hm. unfold healthCheck.
  destruct (Z.eqb_spec (checkInterval r) 0); [done|].
  destruct (Z.eqb_spec (maxFails r) 0); done.
Qed.

Lemma healthCheck_keeps r uh w :
  now (healthCheck r uh w) = now w /\
  writes (healthCheck r uh w) = writes w /\
  initialFinished (healthCheck r uh w) = initialFinished w /\
  last_exchange_err (trace (healthCheck r uh w)) = last_exchange_err (trace w).
Proof.
  unfold healthCheck. destruct (_ || _); [done|]. simpl.
  unfold writes. simpl. rewrite List.filter_app. simpl. rewrite app_nil_r.
  repeat split.
  induction (trace w) as [|e tr IH]; simpl; [done|]. by rewrite IH.
Qed.

Lemma last_exchange_err_app_exchange tr h x :
  last_exchange_err (tr ++ [EvExchange h x]) = Some x.
Proof. induction tr as [|e tr IH]; simpl; [done|]. by rewrite IH. Qed.

Lemma on_failure_keeps u host e w :
  now (on_failure u host e w) = now w /\
  writes (on_failure u host e w) = writes w /\
  initialFinished (on_failure u host e w) = initialFinished w /\
  last_exchange_err (trace (on_failure u host e w)) =
    last_exchange_err (trace w).
Proof.
  unfold on_failure. destruct (negb _); [|done].
  by destruct (healthCheck_keeps u host (warn (WarnExchangeFailed e) w))
    as (-> & -> & -> & ->).
Qed.

(** ** urlInitialInProgress *)

Lemma urlInitialInProgress_latched r w :
  initialFinished w <> 0 -> urlInitialInProgress r w = (Val false, w).
Proof.
  intros Hset. unfold urlInitialInProgress.
  by destruct (Z.eqb_spec (initialFinished w) 0).
Qed.

Lemma urlInitialInProgress_keeps r w :
  trace (urlInitialInProgress r w).2 = trace w /\
  now (urlInitialInProgress r w).2 = now w /\
  fails (urlInitialInProgress r w).2 = fails w /\
  (initialFinished w <> 0 ->
   initialFinished (urlInitialInProgress r w).2 = initialFinished w).
Proof.
  unfold urlInitialInProgress.
  destruct (Z.eqb_spec (initialFinished w) 0) as [Hz|Hnz]; simpl; [|done].
  destruct (Upstreams r) as [ups|]; [|done].
  destruct (initial_scan ups w) as [[]|]; done.
Qed.

Lemma initial_scan_loading (us : list reloadableUpstream) w :
  Exists (fun u => load_initialCount (upid u) w <> 0) us ->
  initial_scan (Reloadable <$> us) w = Val true.
Proof.
  induction 1 as [u us Hu | u us _ IH]; simpl.
  - by destruct (Z.eqb_spec (load_initialCount (upid u) w) 0).
  - by destruct (Z.eqb_spec (load_initialCount (upid u) w) 0).
Qed.

Lemma initial_scan_loaded (us : list reloadableUpstream) w :
  Forall (fun u => load_initialCount (upid u) w = 0) us ->
  initial_scan (Reloadable <$> us) w = Val false.
Proof.
  induction 1 as [| u us Hu _ IH]; simpl; [done|].
  by rewrite Hu.
Qed.

(** ** Delivery and the outer loop *)

Section RouterFacts.

Context `{RequestLib}.

Lemma deliver_mismatch r req m w :
  state_Match req m = false ->
  deliver r req m w =
  (Returned 0 None,
   record (EvWriteMsg (SetRcode new_Msg req RcodeFormatError)) w).
Proof. intros Hm. unfold deliver. by rewrite Hm. Qed.

Lemma deliver_match r req m w :
  state_Match req m = true ->
  deliver r req m w =
  match urlInitialInProgress r w with
  | (Panic msg, w1) => (Panicked msg, w1)
  | (Val true, w1) =>
      (Returned 0 None,
       record (EvWriteMsg
                 (rewriteToMinimalTTLs m (MinimalDefaultTTL / Second))) w1)
  | (Val false, w1) => (Returned 0 None, record (EvWriteMsg m) w1)
  end.
Proof. intros Hm. unfold deliver. by rewrite Hm. Qed.

(** Delivery writes one reply and reports success, or panics before it
    wrote anything; it calls neither [Select] nor [Exchange] and leaves
    the clock and the failure counters alone. *)
Lemma deliver_cases r req m w :
  now (deliver r req m w).2 = now w /\
  fails (deliver r req m w).2 = fails w /\
  (initialFinished w <> 0 ->
   initialFinished (deliver r req m w).2 = initialFinished w) /\
  (((deliver r req m w).1 = Returned 0 None /\
    exists m', trace (deliver r req m w).2 = trace w ++ [EvWriteMsg m']) \/
   ((exists msg, (deliver r req m w).1 = Panicked msg) /\
    trace (deliver r req m w).2 = trace w)).
Proof.
  unfold deliver. destruct (state_Match req m); simpl.
  - destruct (urlInitialInProgress_keeps r w) as (Ht & Hn & Hf & Hi).
    destruct (urlInitialInProgress r w) as [[[]|msg] w1]; simpl in *;
      rewrite Ht; (repeat split; [done..|]); eauto.
  - repeat split; eauto.
Qed.

Lemma writes_app_write w w' m :
  trace w' = trace w ++ [EvWriteMsg m] -> writes w' = writes w ++ [EvWriteMsg m].
Proof. intros Ht. unfold writes. by rewrite Ht, List.filter_app. Qed.

Lemma serve_loop_unfold fuel r u req deadline ue w :
  serve_loop (S fuel) r u req deadline ue w =
  if now w <? deadline then
    match upSelect u w with
    | None =>
        Some (Returned RcodeServerFailure (Some errNoHealthy),
              record (EvSelect (upid u) None) w)
    | Some host =>
        match exchange_loop fuel host req
                (record (EvSelect (upid u) (Some (hid host))) w) with
        | None => None
        | Some (res, w1) =>
            match err res with
            | Some e =>
                serve_loop fuel r u req deadline (Some e)
                  (on_failure u host e w1)
            | None =>
                match reply res with
                | None => Some (Panicked "nil pointer dereference", w1)
                | Some m => Some (deliver r req m w1)
                end
            end
        end
    end
  else
    match ue with
    | None =>
        Some (Panicked
                "Why upstreamErr is nil?! Are you in a debugger or your machine running slow?",
              w)
    | Some e => Some (Returned RcodeServerFailure (Some e), w)
    end.
Proof. done. Qed.

(** A request whose pool matched: [ServeDNS] is the loop, entered with the
    deadline a timeout away and no error seen. *)
Lemma ServeDNS_matched fuel r u req t w :
  match_ r (state_Name req) w = Val (Some (Reloadable u), t) ->
  ServeDNS fuel r req w =
  serve_loop fuel r u req (now w + defaultTimeout) None w.
Proof. intros Hm. unfold ServeDNS. by rewrite Hm. Qed.

Lemma record_select_keeps p h w :
  writes (record (EvSelect p h) w) = writes w.
Proof. unfold writes. simpl. rewrite List.filter_app. simpl. apply app_nil_r. Qed.

(** The loop reports success exactly when it wrote a reply, and then it
    wrote one; the latch, once set, stays as it is. *)
Lemma serve_loop_keeps r u req deadline :
  forall fuel ue w out w',
    serve_loop fuel r u req deadline ue w = Some (out, w') ->
    ((out = Returned 0 None /\
      exists m, writes w' = writes w ++ [EvWriteMsg m]) \/
     (out <> Returned 0 None /\ writes w' = writes w)) /\
    (initialFinished w <> 0 -> initialFinished w' = initialFinished w).
Proof.
  induction fuel as [|fuel IH]; intros ue w out w' Hrun; [done|].
  rewrite serve_loop_unfold in Hrun.
  destruct (now w <? deadline).
  - destruct (upSelect u w) as [host|].
    + destruct (exchange_loop fuel host req _) as [[res w1]|] eqn:Hloop;
        [|done].
      apply exchange_loop_keeps in Hloop as [Hwr Hfin].
      rewrite record_select_keeps in Hwr. simpl in Hfin.
      destruct (err res) as [e|].
      * apply IH in Hrun as [Hout Hlatch].
        destruct (on_failure_keeps u host e w1) as (_ & Hw & Hi & _).
        rewrite Hw, Hwr in Hout. rewrite Hi, Hfin in Hlatch. done.
      * destruct (reply res) as [m|].
        -- destruct (deliver_cases r req m w1) as (_ & _ & Hi & Hcase).
           assert (out = (deliver r req m w1).1 /\ w' = (deliver r req m w1).2)
             as [-> ->] by (injection Hrun as ->; done).
           rewrite <- Hwr, <- Hfin. split; [|done].
           destruct Hcase as [[Hout [m' Htr]] | [[msg Hout] Htr]].
           ++ left. split; [done|]. exists m'. by apply writes_app_write.
           ++ right. split; [by rewrite Hout|]. unfold writes. by rewrite Htr.
        -- injection Hrun as <- <-. split; [|by rewrite Hfin].
           right. by rewrite Hwr.
    + injection Hrun as <- <-. split; [|done].
      right. by rewrite record_select_keeps.
  - destruct ue; injection Hrun as <- <-; (split; [|done]); by right.
Qed.

(** More fuel never changes a result. *)
Lemma exchange_loop_mono host req :
  forall n m w x,
    (n <= m)%nat ->
    exchange_loop n host req w = Some x ->
    exchange_loop m host req w = Some x.
Proof.
  induction n as [|n IH]; intros m w x Hle Hrun; [done|].
  destruct m as [|m]; [lia|].
  rewrite exchange_loop_unfold in *.
  destruct (is_errCachedConnClosed _); [|done].
  apply (IH m); [lia | done].
Qed.

Lemma serve_loop_mono r u req deadline :
  forall n m ue w x,
    (n <= m)%nat ->
    serve_loop n r u req deadline ue w = Some x ->
    serve_loop m r u req deadline ue w = Some x.
Proof.
  induction n as [|n IH]; intros m ue w x Hle Hrun; [done|].
  destruct m as [|m]; [lia|].
  rewrite serve_loop_unfold in *.
  destruct (now w <? deadline); [|done].
  destruct (upSelect u w) as [host|]; [|done].
  destruct (exchange_loop n host req _) as [[res w1]|] eqn:Hloop; [|done].
  rewrite (exchange_loop_mono host req n m _ _ ltac:(lia) Hloop).
  destruct (err res); [|done].
  apply (IH m); [lia | done].
Qed.

Lemma ServeDNS_mono r req w n m x :
  (n <= m)%nat ->
  ServeDNS n r req w = Some x -> ServeDNS m r req w = Some x.
Proof.
  intros Hle. unfold ServeDNS.
  destruct (match_ r (state_Name req) w) as [[[[u|]|] t]|]; try done.
  by apply serve_loop_mono.
Qed.

End RouterFacts.

Lemma defaultTimeout_pos : 0 < defaultTimeout.
Proof. done. Qed.

Lemma exchanges_record_select p h w :
  exchanges (record (EvSelect p h) w) = exchanges w.
Proof.
  unfold exchanges. simpl. rewrite List.filter_app. simpl.
  by rewrite app_nil_r.
Qed.

(** The inner loop calls [Exchange] on its host and nothing else. *)
Lemma exchange_loop_trace fuel host req :
  forall w res w',
    exchange_loop fuel host req w = Some (res, w') ->
    is_errCachedConnClosed (err res) = false /\
    (exists evs,
       trace w' = trace w ++ evs /\
       Forall (fun e => exists x, e = EvExchange (hid host) x) evs) /\
    (sleeping w = [] -> fails w' = fails w /\ sleeping w' = []).
Proof.
  induction fuel as [|fuel IH]; intros w res w' Hrun; [done|].
  rewrite exchange_loop_unfold in Hrun.
  destruct (is_errCachedConnClosed _) eqn:Hc.
  - apply IH in Hrun as (Hres & (evs & Htr & Hevs) & Hq).
    split; [done|]. split.
    + exists (EvExchange (hid host) (err (Exchange host req w)) :: evs).
      split.
      * rewrite Htr, do_Exchange_trace. by rewrite <- app_assoc.
      * constructor; eauto.
    + intros Hs. destruct (do_Exchange_quiet host req w Hs) as [Hf Hsl].
      destruct (Hq Hsl) as [Hf1 Hsl1]. split; congruence.
  - assert (res = Exchange host req w) as -> by congruence.
    assert (w' = note_truncation host (Exchange host req w)
                   (do_Exchange host req w).2) as -> by congruence.
    split; [done|]. split.
    + exists [EvExchange (hid host) (err (Exchange host req w))]. split.
      * by rewrite note_truncation_trace, do_Exchange_trace.
      * repeat constructor. eauto.
    + intros Hs. rewrite note_truncation_fails, note_truncation_sleeping.
      by apply do_Exchange_quiet.
Qed.

(** * The claims *)

Section Claims.

Context `{RequestLib}.

(** C1.  A host whose [Exchange] reports the closed cached connection on
    the first [K] attempts of the request and then answers: the request
    selects once, calls [Exchange] on that host [K + 1] times and goes on
    to deliver the answer.  Nothing else is recorded in between, so no
    host is selected again and no failure is counted; with no decay
    goroutine asleep the failure counters end as they began.  Fuel for
    fewer than [K + 1] attempts does not let the request return. *)
Theorem closed_conn_retries_same_host
    (K : nat) (r : Dnsredir) (u : reloadableUpstream) (host : UpstreamHost)
    (req m : Msg) (d t : Z) (w : World) :
  match_ r (state_Name req) w = Val (Some (Reloadable u), t) ->
  upSelect u w = Some host ->
  (forall w', (exchanges w <= exchanges w' < exchanges w + K)%nat ->
              err (Exchange host req w') = Some errCachedConnClosed) ->
  (forall w', exchanges w' = (exchanges w + K)%nat ->
              Exchange host req w' = {| reply := Some m; err := None; rtt := d |}) ->
  exists w1,
    ServeDNS (K + 2) r req w = Some (deliver r req m w1) /\
    trace w1 =
      trace w
      ++ (EvSelect (upid u) (Some (hid host))
          :: replicate K (EvExchange (hid host) (Some errCachedConnClosed))
          ++ [EvExchange (hid host) None]) /\
    (exists tail,
       trace (deliver r req m w1).2 = trace w1 ++ tail /\
       Forall (fun e => is_EvWriteMsg e = true) tail) /\
    (sleeping w = [] -> fails (deliver r req m w1).2 = fails w) /\
    (forall fuel, (fuel < K + 2)%nat -> ServeDNS fuel r req w = None).
Proof.
  intros Hm Hsel Hclosed Hthen.
  set (w0 := record (EvSelect (upid u) (Some (hid host))) w).
  assert (exchanges w0 = exchanges w) as Hw0
    by apply exchanges_record_select.
  assert ((now w <? now w + defaultTimeout) = true) as Hnow
    by (apply Z.ltb_lt; pose proof defaultTimeout_pos; lia).
  destruct (exchange_loop_closed host req
              {| reply := Some m; err := None; rtt := d |} eq_refl
              K (S K) w0) as (w1 & Hrun & Htr & Hq).
  { intros w' Hw'. apply Hclosed. lia. }
  { intros w' Hw'. apply Hthen. lia. }
  { lia. }
  exists w1. split; [|split; [|split; [|split]]].
  - rewrite (ServeDNS_matched _ _ _ _ _ _ Hm).
    replace (K + 2)%nat with (S (S K)) by lia.
    rewrite serve_loop_unfold, Hnow, Hsel. fold w0. by rewrite Hrun.
  - rewrite Htr. subst w0. simpl. by rewrite <- app_assoc.
  - destruct (deliver_cases r req m w1)
      as (_ & _ & _ & [[_ [m' Hd]] | [_ Hd]]).
    + exists [EvWriteMsg m']. split; [done|]. by repeat constructor.
    + exists []. split; [by rewrite app_nil_r|]. constructor.
  - intros Hs. destruct (deliver_cases r req m w1) as (_ & -> & _).
    by destruct (Hq Hs) as [-> _].
  - intros fuel Hfuel. rewrite (ServeDNS_matched _ _ _ _ _ _ Hm).
    destruct fuel as [|fuel]; [done|].
    rewrite serve_loop_unfold, Hnow, Hsel. fold w0.
    destruct K as [|K].
    + by replace fuel with 0%nat by lia.
    + rewrite (exchange_loop_starves host req (S K)); [done| |lia].
      intros w' Hw'. apply Hclosed. lia.
Qed.

(** C3.  An exchange that succeeded with a reply that does not match the
    request: the loop writes a reply made from the request with rcode
    FORMERR (same id, same question) and returns 0 and no error at once.
    Between the selection and the write only [Exchange] was called, on the
    selected host; the write changes no counter and starts no goroutine. *)
Theorem mismatch_answers_formerr
    (fuel : nat) (r : Dnsredir) (u : reloadableUpstream) (host : UpstreamHost)
    (req m : Msg) (res : ExchResult) (deadline t : Z) (ue : option error)
    (w w1 : World) :
  match_ r (state_Name req) w = Val (Some (Reloadable u), t) ->
  now w < deadline ->
  upSelect u w = Some host ->
  exchange_loop fuel host req (record (EvSelect (upid u) (Some (hid host))) w)
    = Some (res, w1) ->
  err res = None ->
  reply res = Some m ->
  state_Match req m = false ->
  let formerr := SetRcode new_Msg req RcodeFormatError in
  let w' := record (EvWriteMsg formerr) w1 in
  serve_loop (S fuel) r u req deadline ue w = Some (Returned 0 None, w') /\
  ServeDNS (S fuel) r req w = Some (Returned 0 None, w') /\
  Rcode formerr = RcodeFormatError /\
  Id formerr = Id req /\
  Questions formerr = take 1 (Questions req) /\
  Response formerr = true /\
  (exists evs,
     trace w' =
       trace w
       ++ (EvSelect (upid u) (Some (hid host)) :: evs
           ++ [EvWriteMsg formerr]) /\
     Forall (fun e => exists x, e = EvExchange (hid host) x) evs) /\
  fails w' = fails w1 /\
  sleeping w' = sleeping w1 /\
  (sleeping w = [] -> fails w' = fails w).
Proof.
  intros Hm Hnow Hsel Hrun Herr Hreply Hmis formerr w'.
  assert (forall dl ue', now w < dl ->
            serve_loop (S fuel) r u req dl ue' w = Some (Returned 0 None, w'))
    as Hloop.
  { intros dl ue' Hdl. rewrite serve_loop_unfold.
    rewrite (proj2 (Z.ltb_lt _ _) Hdl), Hsel, Hrun, Herr, Hreply.
    by rewrite deliver_mismatch. }
  apply exchange_loop_trace in Hrun as (_ & (evs & Htr & Hevs) & Hq).
  split; [by apply Hloop|]. split.
  { rewrite (ServeDNS_matched _ _ _ _ _ _ Hm). apply Hloop.
    pose proof defaultTimeout_pos. lia. }
  split; [done|]. split; [done|]. split.
  { subst formerr. simpl. by destruct (Questions req). }
  split; [done|]. split.
  { exists evs. split; [|done]. subst w'. simpl. rewrite Htr. simpl.
    by rewrite <- !app_assoc. }
  split; [done|]. split; [done|].
  intros Hs. subst w'. simpl. by destruct (Hq Hs) as [-> _].
Qed.

(** C6.  [Select] returns no host while time remains: the loop returns
    the server-failure code with [errNoHealthy] at once, whatever happened
    before in the request; the selection is the only thing recorded, so no
    exchange and no further selection follows. *)
Theorem no_healthy_upstream_is_final
    (fuel : nat) (r : Dnsredir) (u : reloadableUpstream) (req : Msg)
    (deadline t : Z) (ue : option error) (w : World) :
  match_ r (state_Name req) w = Val (Some (Reloadable u), t) ->
  now w < deadline ->
  upSelect u w = None ->
  serve_loop (S fuel) r u req deadline ue w =
    Some (Returned RcodeServerFailure (Some errNoHealthy),
          record (EvSelect (upid u) None) w) /\
  ServeDNS (S fuel) r req w =
    Some (Returned RcodeServerFailure (Some errNoHealthy),
          record (EvSelect (upid u) None) w) /\
  trace (record (EvSelect (upid u) None) w) =
    trace w ++ [EvSelect (upid u) None] /\
  error_message errNoHealthy = "no healthy upstream host".
Proof.
  intros Hm Hnow Hsel.
  assert (forall dl ue', now w < dl ->
            serve_loop (S fuel) r u req dl ue' w =
            Some (Returned RcodeServerFailure (Some errNoHealthy),
                  record (EvSelect (upid u) None) w)) as Hloop.
  { intros dl ue' Hdl. rewrite serve_loop_unfold.
    by rewrite (proj2 (Z.ltb_lt _ _) Hdl), Hsel. }
  split; [by apply Hloop|]. split; [|done].
  rewrite (ServeDNS_matched _ _ _ _ _ _ Hm). apply Hloop.
  pose proof defaultTimeout_pos. lia.
Qed.

(** C10.  A matched request that returned: the router wrote a reply
    exactly when [ServeDNS] returned 0 and no error, and then it wrote one
    reply; this holds for the answer of an upstream and for the FORMERR
    reply made on the spot alike. *)
Theorem own_reply_reports_success
    (fuel : nat) (r : Dnsredir) (u : reloadableUpstream) (req : Msg) (t : Z)
    (w w' : World) (out : Outcome) :
  match_ r (state_Name req) w = Val (Some (Reloadable u), t) ->
  ServeDNS fuel r req w = Some (out, w') ->
  (writes w' <> writes w <-> out = Returned 0 None) /\
  (out = Returned 0 None -> exists m, writes w' = writes w ++ [EvWriteMsg m]) /\
  (forall m w1,
     state_Match req m = false ->
     deliver r req m w1 =
       (Returned 0 None,
        record (EvWriteMsg (SetRcode new_Msg req RcodeFormatError)) w1)).
Proof.
  intros Hm Hrun. rewrite (ServeDNS_matched _ _ _ _ _ _ Hm) in Hrun.
  apply serve_loop_keeps in Hrun as [[[-> [m Hw]] | [Hout Hw]] _].
  - split; [|split]; [|by eauto|by apply deliver_mismatch].
    split; [done|]. intros _. rewrite Hw. intros Heq.
    apply (f_equal length) in Heq. rewrite length_app in Heq. simpl in Heq.
    lia.
  - split; [|split]; [|done|by apply deliver_mismatch].
    split; [by rewrite Hw|done].
Qed.

(** Against a pool that always has a host to select and whose hosts always
    fail with an error other than the closed cached connection, each
    attempt taking some time, the loop gets to its deadline. *)
Lemma serve_loop_reaches_deadline
    (r : Dnsredir) (u : reloadableUpstream) (req : Msg) (deadline D : Z) :
  (forall w', is_Some (upSelect u w')) ->
  (forall h w0 w', upSelect u w0 = Some h ->
     exists e, err (Exchange h req w') = Some e /\ e <> errCachedConnClosed) ->
  (forall h w0 w', upSelect u w0 = Some h ->
     0 < rtt (Exchange h req w') <= D) ->
  forall (n : nat) (ue : option error) (w : World),
    deadline - now w <= Z.of_nat n ->
    now w < deadline + D ->
    (now w < deadline \/
     exists e, ue = Some e /\ last_exchange_err (trace w) = Some (Some e)) ->
    exists e w',
      serve_loop (S n) r u req deadline ue w =
        Some (Returned RcodeServerFailure (Some e), w') /\
      deadline <= now w' < deadline + D /\
      last_exchange_err (trace w') = Some (Some e).
Proof.
  intros Hsel Hfail Hrtt n.
  induction n as [|n IH]; intros ue w Hn HD Hue;
    rewrite serve_loop_unfold; destruct (Z.ltb_spec (now w) deadline) as [Hlt|Hge];
    try lia.
  - destruct Hue as [?|(e & -> & Hlast)]; [lia|]. exists e, w. split; [done|].
    split; [lia|done].
  - destruct (Hsel w) as [h Hh]. rewrite Hh.
    set (w0 := record (EvSelect (upid u) (Some (hid h))) w).
    destruct (Hfail h w w0 Hh) as (e & He & Hne).
    rewrite exchange_loop_leaves
      by (rewrite He; destruct e; simpl; congruence).
    rewrite He.
    set (w1 := note_truncation h (Exchange h req w0) (do_Exchange h req w0).2).
    destruct (on_failure_keeps u h e w1) as (Hnow & _ & _ & Hlast).
    assert (now w1 = now w + rtt (Exchange h req w0)) as Hnow1
      by (subst w1; by rewrite note_truncation_now, do_Exchange_now).
    pose proof (Hrtt h w w0 Hh) as Hd.
    apply IH.
    + rewrite Hnow, Hnow1. lia.
    + rewrite Hnow, Hnow1. lia.
    + right. exists e. split; [done|]. rewrite Hlast. subst w1.
      rewrite note_truncation_trace, do_Exchange_trace, He.
      apply last_exchange_err_app_exchange.
  - destruct Hue as [?|(e & -> & Hlast)]; [lia|]. exists e, w. split; [done|].
    split; [lia|done].
Qed.

(** C2, as the code has it.  A matched request against a pool that always
    has a host to select and whose hosts always fail with an error other
    than the closed cached connection, each attempt taking a positive time
    of at most [D]: [ServeDNS] returns (with any fuel above the number of
    nanoseconds of the timeout), not before the deadline and less than [D]
    after it, with the server-failure code and the error of the last
    exchange, and without having written a reply.  In general, the loop
    that finds its deadline passed returns the server-failure code with
    the error it saw last. *)
Theorem deadline_bounds_failing_pool
    (r : Dnsredir) (u : reloadableUpstream) (req : Msg) (t D : Z) (w : World) :
  match_ r (state_Name req) w = Val (Some (Reloadable u), t) ->
  (forall w', is_Some (upSelect u w')) ->
  (forall h w0 w', upSelect u w0 = Some h ->
     exists e, err (Exchange h req w') = Some e /\ e <> errCachedConnClosed) ->
  (forall h w0 w', upSelect u w0 = Some h ->
     0 < rtt (Exchange h req w') <= D) ->
  (exists e w',
     (forall fuel, (Z.to_nat defaultTimeout < fuel)%nat ->
        ServeDNS fuel r req w =
          Some (Returned RcodeServerFailure (Some e), w')) /\
     now w + defaultTimeout <= now w' < now w + defaultTimeout + D /\
     last_exchange_err (trace w') = Some (Some e) /\
     writes w' = writes w) /\
  (forall fuel deadline e' w',
     deadline <= now w' ->
     serve_loop (S fuel) r u req deadline (Some e') w' =
       Some (Returned RcodeServerFailure (Some e'), w')).
Proof.
  intros Hm Hsel Hfail Hrtt. pose proof defaultTimeout_pos as HT.
  assert (0 < D) as HD.
  { destruct (Hsel w) as [h Hh]. pose proof (Hrtt h w w Hh). lia. }
  split.
  - destruct (serve_loop_reaches_deadline r u req (now w + defaultTimeout) D
                Hsel Hfail Hrtt (Z.to_nat defaultTimeout) None w)
      as (e & w' & Hrun & Hnow & Hlast); [lia | lia | left; lia |].
    exists e, w'. split; [|split; [done|split; [done|]]].
    + intros fuel Hfuel. rewrite (ServeDNS_matched _ _ _ _ _ _ Hm).
      apply (serve_loop_mono _ _ _ _ (S (Z.to_nat defaultTimeout)));
        [lia | done].
    + by apply serve_loop_keeps in Hrun as [[[[=] _] | [_ Hw]] _].
  - intros fuel deadline e' w' Hpast. rewrite serve_loop_unfold.
    by destruct (Z.ltb_spec (now w') deadline); [lia|].
Qed.

Lemma map_lookup {A B : Type} (f : A -> B) (l : list A) (i : nat) :
  map f l !! i = f <$> (l !! i).
Proof.
  revert i. induction l as [|x l IH]; intros [|i]; simpl; done.
Qed.

Lemma clamp_clamped C rr : clamped C rr (clamp C rr).
Proof. by unfold clamped, clamp, MinUint32. Qed.

Lemma wrap32_small z : - 2 ^ 31 <= z < 2 ^ 31 -> wrap32 z = z.
Proof. intros Hz. unfold wrap32. rewrite Z.mod_small; lia. Qed.

(** C9, as the code has it.  A result other than the closed cached
    connection ends the inner loop after that one attempt, truncated or
    not, and is handed on as it came.  The one thing done about a
    truncated reply is a warning, written when the transport does not
    force TCP and does prefer UDP; with a transport that neither forces
    TCP nor prefers UDP nothing is written. *)
Theorem truncation_is_not_retried
    (fuel : nat) (host : UpstreamHost) (req : Msg) (w : World) :
  is_errCachedConnClosed (err (Exchange host req w)) = false ->
  exists w',
    exchange_loop (S fuel) host req w = Some (Exchange host req w, w') /\
    trace w' = trace w ++ [EvExchange (hid host) (err (Exchange host req w))] /\
    now w' = now w + rtt (Exchange host req w) /\
    (is_truncated (reply (Exchange host req w)) = true ->
     forceTcp (transport host) = false ->
     preferUdp (transport host) = true ->
     warnings w' = warnings w ++ [WarnRetryWithTCP]) /\
    (is_truncated (reply (Exchange host req w)) = false \/
     forceTcp (transport host) = true \/
     preferUdp (transport host) = false ->
     warnings w' = warnings w).
Proof.
  intros Hc. eexists. split; [by apply exchange_loop_leaves|].
  rewrite note_truncation_trace, note_truncation_now, do_Exchange_trace,
    do_Exchange_now.
  split; [done|]. split; [done|].
  unfold note_truncation. split.
  - intros -> -> ->. cbn [andb negb].
    change (warnings (warn WarnRetryWithTCP ?x))
      with (warnings x ++ [WarnRetryWithTCP]).
    by rewrite do_Exchange_warnings.
  - intros [-> | [-> | ->]]; cbn [andb negb];
      rewrite ?andb_false_r; cbn [andb negb]; by rewrite do_Exchange_warnings.
Qed.

(** C5.  [match] strips the trailing dot of a name longer than one byte
    and returns the first pool of the list that accepts the result: every
    pool before the one returned rejected the name, and a pool that
    accepts it with only rejecting pools before it is the one returned,
    whatever follows.  When no pool accepts the name of the request,
    [ServeDNS] is the next handler run on the untouched world (the failure
    of the chain when there is no next handler), for any fuel. *)
Theorem match_returns_first_pool
    (r : Dnsredir) (ups : list Upstream) (name : string) (w : World) :
  Upstreams r = Some ups ->
  let n :=
    if (1 <? String.length name)%nat then removeTrailingDot name else name in
  match_ r name w = Val (match_scan ups n, 0) /\
  (forall up,
     match_scan ups n = Some up ->
     exists l1 l2,
       ups = l1 ++ up :: l2 /\
       Forall (fun x => Match x n = false) l1 /\ Match up n = true) /\
  (forall l1 A l2,
     ups = l1 ++ A :: l2 ->
     Forall (fun x => Match x n = false) l1 ->
     Match A n = true ->
     match_ r name w = Val (Some A, 0)) /\
  (match_scan ups n = None <-> Forall (fun x => Match x n = false) ups) /\
  (forall (req : Msg) (fuel : nat),
     state_Name req = name ->
     Forall (fun x => Match x n = false) ups ->
     ServeDNS fuel r req w = Some (NextOrFailure pluginName (Next r) req w) /\
     (forall h, Next r = Some h -> ServeDNS fuel r req w = Some (h req w)) /\
     (Next r = None ->
      exists e,
        ServeDNS fuel r req w = Some (Returned RcodeServerFailure (Some e), w))).
Proof.
  intros Hups n.
  assert (match_ r name w = Val (match_scan ups n, 0)) as Hmatch.
  { unfold match_, since. rewrite Hups. fold n. rewrite Z.sub_diag.
    by destruct (match_scan ups n). }
  assert (forall l, match_scan l n = None <->
                    Forall (fun x => Match x n = false) l) as Hnone.
  { induction l as [|x l IH]; simpl; [by split; [constructor|]|].
    destruct (Match x n) eqn:Hx.
    - split; [done|]. intros Hall. inversion Hall. congruence.
    - rewrite IH. split; [by constructor|]. by inversion 1. }
  assert (forall l1 A l2,
            Forall (fun x => Match x n = false) l1 -> Match A n = true ->
            match_scan (l1 ++ A :: l2) n = Some A) as Hfirst.
  { intros l1 A l2 Hl1 HA. induction Hl1 as [|x l1 Hx _ IH]; simpl.
    - by rewrite HA.
    - by rewrite Hx. }
  split; [done|]. split; [|split; [|split]].
  - clear Hups Hmatch. induction ups as [|x l IH]; intros up; simpl; [done|].
    destruct (Match x n) eqn:Hx.
    + intros [= ->]. exists [], l. by repeat split.
    + intros Hup. destruct (IH up Hup) as (l1 & l2 & -> & Hl1 & Hm).
      exists (x :: l1), l2. split; [done|]. split; [by constructor|done].
  - intros l1 A l2 -> Hl1 HA. by rewrite Hmatch, Hfirst.
  - apply Hnone.
  - intros req fuel Hname Hall.
    assert (ServeDNS fuel r req w =
            Some (NextOrFailure pluginName (Next r) req w)) as Hserve.
    { unfold ServeDNS. rewrite Hname, Hmatch.
      by rewrite (proj2 (Hnone ups) Hall). }
    split; [done|]. split.
    + intros h Hh. by rewrite Hserve, Hh.
    + intros Hend. rewrite Hserve, Hend. simpl. eauto.
Qed.

(** C4, as the code has it.  A pool with a failure threshold and a check
    interval, both other than zero, and an exchange with one of its hosts
    that ended in a transport error [e] (never the closed cached
    connection, on which the inner loop stays): the loop goes round again
    having raised that host's counter by one and no other, and having
    started a goroutine that sleeps for the fail timeout of two seconds.
    No probe is made at that moment.  When the goroutine runs it lowers
    the host's counter by one, and it calls [Check] on the host exactly
    when the counter value it captured, the one just after the increment,
    is a multiple of three.  With no other goroutine asleep, nothing of
    this happens before the two seconds are over, and all of it once they
    are. *)
Theorem generic_failure_is_counted
    (fuel : nat) (r : Dnsredir) (u : reloadableUpstream) (host : UpstreamHost)
    (req : Msg) (res : ExchResult) (e : error) (deadline : Z)
    (ue : option error) (w w1 : World) :
  checkInterval u <> 0 ->
  maxFails u <> 0 ->
  now w < deadline ->
  upSelect u w = Some host ->
  exchange_loop fuel host req (record (EvSelect (upid u) (Some (hid host))) w)
    = Some (res, w1) ->
  err res = Some e ->
  let v := wrap32 (load_fails (hid host) w1 + 1) in
  let task :=
    {| wake := now w1 + 2 * Second; task_host := hid host; task_fails := v |} in
  let w2 := on_failure u host e w1 in
  e <> errCachedConnClosed /\
  serve_loop (S fuel) r u req deadline ue w =
    serve_loop fuel r u req deadline (Some e) w2 /\
  load_fails (hid host) w2 = v /\
  (- 2 ^ 31 <= load_fails (hid host) w1 < 2 ^ 31 - 1 ->
   v = load_fails (hid host) w1 + 1) /\
  (forall h, h <> hid host -> load_fails h w2 = load_fails h w1) /\
  trace w2 = trace w1 ++ [EvAddFails (hid host) v] /\
  sleeping w2 = sleeping w1 ++ [task] /\
  probes w2 = probes w1 /\
  (forall w3,
     load_fails (hid host) (run_task task w3) =
       wrap32 (load_fails (hid host) w3 - 1) /\
     (Z.rem v 3 = 0 -> probes (run_task task w3) = probes w3 ++ [hid host]) /\
     (Z.rem v 3 <> 0 -> probes (run_task task w3) = probes w3)) /\
  (Z.rem v 3 = 0 <-> (3 | v)) /\
  (sleeping w1 = [] ->
   forall d,
     (d < 2 * Second ->
      sleeping (elapse d w2) = [task] /\
      fails (elapse d w2) = fails w2 /\
      probes (elapse d w2) = probes w2) /\
     (2 * Second <= d ->
      elapse d w2 =
        run_task task (set_sleeping [] (set_now (now w2 + d) w2)))).
Proof.
  intros Hi Hmf Hnow Hsel Hrun Herr v task w2.
  assert (w2 =
          spawn task
            (record (EvAddFails (hid host) v)
               (set_fails (<[hid host := v]> (fails w1))
                  (warn (WarnExchangeFailed e) w1)))) as Hw2.
  { subst w2. unfold on_failure.
    destruct (Z.eqb_spec (maxFails u) 0); [done|]. cbn [negb].
    by rewrite healthCheck_on. }
  split.
  { apply exchange_loop_trace in Hrun as (Hc & _). rewrite Herr in Hc.
    by intros ->. }
  split.
  { rewrite serve_loop_unfold.
    by rewrite (proj2 (Z.ltb_lt _ _) Hnow), Hsel, Hrun, Herr. }
  split.
  { rewrite Hw2. unfold load_fails. simpl. by rewrite lookup_insert_eq. }
  split.
  { intros Hrange. subst v. apply wrap32_small. lia. }
  split.
  { intros h Hh. rewrite Hw2. unfold load_fails. simpl.
    by rewrite lookup_insert_ne. }
  split; [by rewrite Hw2|]. split; [by rewrite Hw2|].
  split; [by rewrite Hw2|]. split.
  { intros w3. unfold run_task, AddInt32_fails. cbn [snd task_host task_fails task].
    change failureCheck with 3.
    destruct (Z.eqb_spec (Z.rem v 3) 0) as [Hz|Hnz];
      unfold load_fails; simpl; rewrite lookup_insert_eq; simpl;
      (split; [reflexivity|]); split; intros ?; congruence. }
  split; [by apply Z.rem_divide|].
  intros Hs d.
  assert (sleeping w2 = [task]) as Hs2 by (by rewrite Hw2; simpl; rewrite Hs).
  assert (now w2 = now w1) as Hn2 by (by rewrite Hw2).
  unfold elapse. rewrite Hs2. cbn [List.filter is_due wake task]. rewrite Hn2.
  change (is_due (now w1 + d) task)
    with (now w1 + 2 * Second <=? now w1 + d).
  split; intros Hd.
  - destruct (Z.leb_spec (now w1 + 2 * Second) (now w1 + d)); [lia|]. done.
  - destruct (Z.leb_spec (now w1 + 2 * Second) (now w1 + d)); [|lia]. done.
Qed.

(** C7.  Rewriting a reply for the ceiling [C] gives every record of the
    answer and authority sections, and every record of the additional
    section that is not an OPT record, the smaller of its TTL and [C] and
    changes nothing else; an OPT record of the additional section stays
    as it is; no TTL is raised.  In the loop, a reply that came back
    without an error and matches the request is written after this rewrite
    (for the ceiling of 5 seconds) when the population check says that
    loading is in progress, and as it came when the check says it is
    not. *)
Theorem ttl_rewrite_clamps
    (fuel : nat) (r : Dnsredir) (u : reloadableUpstream) (host : UpstreamHost)
    (req m : Msg) (res : ExchResult) (deadline : Z) (ue : option error)
    (w w1 : World) :
  now w < deadline ->
  upSelect u w = Some host ->
  exchange_loop fuel host req (record (EvSelect (upid u) (Some (hid host))) w)
    = Some (res, w1) ->
  err res = None ->
  reply res = Some m ->
  state_Match req m = true ->
  (forall (a : Msg) (C : Z),
     let a' := rewriteToMinimalTTLs a C in
     (forall i rr, Answer a !! i = Some rr ->
        exists rr', Answer a' !! i = Some rr' /\ clamped C rr rr') /\
     (forall i rr, Ns a !! i = Some rr ->
        exists rr', Ns a' !! i = Some rr' /\ clamped C rr rr') /\
     (forall i rr, Extra a !! i = Some rr ->
        Rrtype (Header rr) <> TypeOPT ->
        exists rr', Extra a' !! i = Some rr' /\ clamped C rr rr') /\
     (forall i rr, Extra a !! i = Some rr ->
        Rrtype (Header rr) = TypeOPT ->
        Extra a' !! i = Some rr) /\
     length (Answer a') = length (Answer a) /\
     length (Ns a') = length (Ns a) /\
     length (Extra a') = length (Extra a) /\
     Id a' = Id a /\ Rcode a' = Rcode a /\ Questions a' = Questions a /\
     Truncated a' = Truncated a /\ Response a' = Response a /\
     (forall rr rr', clamped C rr rr' ->
        Ttl (Header rr') <= Ttl (Header rr) /\ Ttl (Header rr') <= C)) /\
  MinimalDefaultTTL / Second = 5 /\
  ((urlInitialInProgress r w1).1 = Val true ->
   serve_loop (S fuel) r u req deadline ue w =
     Some (Returned 0 None,
           record (EvWriteMsg (rewriteToMinimalTTLs m 5))
             (urlInitialInProgress r w1).2)) /\
  ((urlInitialInProgress r w1).1 = Val false ->
   serve_loop (S fuel) r u req deadline ue w =
     Some (Returned 0 None,
           record (EvWriteMsg m) (urlInitialInProgress r w1).2)).
Proof.
  intros Hnow Hsel Hrun Herr Hreply Hmatch.
  split; [|split; [done|]].
  - intros a C a'. subst a'. simpl.
    split; [|split; [|split; [|split]]].
    + intros i rr Hi. exists (clamp C rr). rewrite map_lookup, Hi.
      split; [done|apply clamp_clamped].
    + intros i rr Hi. exists (clamp C rr). rewrite map_lookup, Hi.
      split; [done|apply clamp_clamped].
    + intros i rr Hi Hopt. exists (clamp C rr). rewrite map_lookup, Hi.
      split; [|apply clamp_clamped]. simpl. unfold clamp_extra.
      by destruct (Z.eqb_spec (Rrtype (Header rr)) TypeOPT).
    + intros i rr Hi Hopt. rewrite map_lookup, Hi. simpl.
      unfold clamp_extra. by rewrite Hopt.
    + rewrite !length_map. do 8 (split; [done|]).
      intros rr rr' (-> & _). lia.
  - assert (serve_loop (S fuel) r u req deadline ue w =
            Some (deliver r req m w1)) as ->.
    { rewrite serve_loop_unfold.
      by rewrite (proj2 (Z.ltb_lt _ _) Hnow), Hsel, Hrun, Herr, Hreply. }
    rewrite deliver_match by done.
    destruct (urlInitialInProgress r w1) as [[[]|msg] w']; simpl;
      split; intros [=]; done.
Qed.

(** C8.  The population check is a latch.  With the flag set it answers
    false and changes nothing, whatever the pools and their counters are.
    With the flag clear it answers true and changes nothing when some pool
    still counts a load in progress, and it sets the flag and answers
    false when no pool does; after that it answers false even when the
    counters are changed.  Nothing the router does changes a flag that is
    set: not the check itself, the failure accounting, the passage of
    time, the exchanges, or the dispatch loop. *)
Theorem population_flag_is_a_latch
    (r : Dnsredir) (us : list reloadableUpstream) (w : World) :
  Upstreams r = Some (Reloadable <$> us) ->
  (forall (r' : Dnsredir) (w' : World),
     initialFinished w' <> 0 -> urlInitialInProgress r' w' = (Val false, w')) /\
  (initialFinished w = 0 ->
   Exists (fun u => load_initialCount (upid u) w <> 0) us ->
   urlInitialInProgress r w = (Val true, w)) /\
  (initialFinished w = 0 ->
   Forall (fun u => load_initialCount (upid u) w = 0) us ->
   urlInitialInProgress r w = (Val false, set_initialFinished 1 w) /\
   forall c,
     urlInitialInProgress r (set_initialCount c (set_initialFinished 1 w)) =
       (Val false, set_initialCount c (set_initialFinished 1 w))) /\
  (forall w',
     initialFinished w' <> 0 ->
     (forall r', initialFinished (urlInitialInProgress r' w').2
                 = initialFinished w') /\
     (forall u h, initialFinished (healthCheck u h w') = initialFinished w') /\
     (forall d, initialFinished (elapse d w') = initialFinished w') /\
     (forall fuel h req res w'',
        exchange_loop fuel h req w' = Some (res, w'') ->
        initialFinished w'' = initialFinished w') /\
     (forall fuel r' u req deadline ue out w'',
        serve_loop fuel r' u req deadline ue w' = Some (out, w'') ->
        initialFinished w'' = initialFinished w')).
Proof.
  intros Hups. split; [|split; [|split]].
  - intros r' w'. apply urlInitialInProgress_latched.
  - intros Hclear Hsome. unfold urlInitialInProgress.
    by rewrite Hclear, Hups, initial_scan_loading.
  - intros Hclear Hnone. split.
    + unfold urlInitialInProgress.
      by rewrite Hclear, Hups, initial_scan_loaded.
    + intros c. by apply urlInitialInProgress_latched.
  - intros w' Hset. split; [|split; [|split; [|split]]].
    + intros r'. by rewrite urlInitialInProgress_latched.
    + intros u h. apply healthCheck_keeps.
    + intros d. apply elapse_initialFinished.
    + intros fuel h req res w'' Hrun.
      by apply exchange_loop_keeps in Hrun as [_ ?].
    + intros fuel r' u req deadline ue out w'' Hrun.
      apply serve_loop_keeps in Hrun as [_ Hkeep]. by apply Hkeep.
Qed.

End Claims.

(** * The claims on the sample deployment *)

#[local] Existing Instance Sample.coredns.

Import Sample.

(** The examples of the spec: a name loses its trailing dot, the root
    keeps it; TTLs 10, 500 and 3600 under a ceiling of 300. *)
Example match_strips_trailing_dot :
  removeTrailingDot "www.example.org." = "www.example.org" /\
  match_ (serving good_host) "www.example.org." world0
    = Val (Some (Reloadable (pool_of good_host)), 0) /\
  match_ (router [Foreign (String.eqb ".")]) "." world0
    = Val (Some (Foreign (String.eqb ".")), 0).
Proof. repeat split. Qed.

Example rewrite_spec_example :
  (fun m => (Ttl ∘ Header <$> Answer m, Ttl ∘ Header <$> Extra m))
    (rewriteToMinimalTTLs answer 300)
  = ([10; 300; 300], [300; 32768]).
Proof. reflexivity. Qed.

(** A request to a host that never answers in time: four attempts of four
    seconds each, then the deadline of fifteen seconds has passed. *)
Example dead_host_run :
  exists w',
    ServeDNS 6 (serving dead_host) query world0
      = Some (Returned RcodeServerFailure (Some (errOther "i/o timeout")), w') /\
    now w' = 16 * Second /\ exchanges w' = 4%nat /\ writes w' = [].
Proof. eexists. split; [vm_compute; reflexivity|]. by vm_compute. Qed.

Lemma closed_conn_retries_same_host_witness :
  exists w1,
    ServeDNS 5 (serving (flaky_host 3)) query world0
      = Some (deliver (serving (flaky_host 3)) query answer w1) /\
    trace w1 =
      [EvSelect 7 (Some 2%nat);
       EvExchange 2 (Some errCachedConnClosed);
       EvExchange 2 (Some errCachedConnClosed);
       EvExchange 2 (Some errCachedConnClosed);
       EvExchange 2 None] /\
    ServeDNS 4 (serving (flaky_host 3)) query world0 = None.
Proof.
  destruct (closed_conn_retries_same_host 3 (serving (flaky_host 3))
              (pool_of (flaky_host 3)) (flaky_host 3) query answer
              (20 * Millisecond) 0 world0)
    as (w1 & Hrun & Htr & _ & _ & Hstarve).
  - reflexivity.
  - reflexivity.
  - intros w' Hw'. simpl in *.
    destruct (Nat.ltb_spec (exchanges w') 3); [reflexivity | lia].
  - intros w' Hw'. simpl in *.
    destruct (Nat.ltb_spec (exchanges w') 3); [lia | reflexivity].
  - exists w1. split; [exact Hrun|]. split; [exact Htr|].
    apply Hstarve. simpl. lia.
Defined.

Lemma exchange_loop_closed_host fuel :
  forall w, exchange_loop fuel closed_host query w = None.
Proof.
  induction fuel as [|fuel IH]; intros w; [done|].
  rewrite exchange_loop_unfold. simpl. apply IH.
Qed.

(** C2 as stated fails: this pool always has a host to select, every
    exchange with it fails (with the closed cached connection, after a
    millisecond), and no amount of fuel lets [ServeDNS] return. *)
Lemma closed_conn_forever_never_returns :
  (forall w, upSelect (pool_of closed_host) w = Some closed_host) /\
  (forall w, err (Exchange closed_host query w) = Some errCachedConnClosed /\
             rtt (Exchange closed_host query w) = Millisecond) /\
  ~ exists fuel res,
      ServeDNS fuel (serving closed_host) query world0 = Some res.
Proof.
  split; [done|]. split; [done|].
  intros (fuel & res & Hrun).
  assert (match_ (serving closed_host) (state_Name query) world0
          = Val (Some (Reloadable (pool_of closed_host)), 0)) as Hm
    by reflexivity.
  rewrite (ServeDNS_matched fuel _ _ _ _ _ Hm) in Hrun.
  destruct fuel as [|fuel]; [done|].
  rewrite serve_loop_unfold in Hrun.
  change (now world0 <? now world0 + defaultTimeout) with true in Hrun.
  cbn [upSelect pool_of pool] in Hrun.
  by rewrite exchange_loop_closed_host in Hrun.
Qed.

Lemma deadline_bounds_failing_pool_witness :
  exists e w',
    ServeDNS (S (Z.to_nat defaultTimeout)) (serving dead_host) query world0
      = Some (Returned RcodeServerFailure (Some e), w') /\
    15 * Second <= now w' < 19 * Second.
Proof.
  destruct (deadline_bounds_failing_pool (serving dead_host)
              (pool_of dead_host) query 0 (4 * Second) world0)
    as ((e & w' & Hrun & Hnow & _) & _).
  - reflexivity.
  - intros w'. exists dead_host. reflexivity.
  - intros h w0 w' Hsel. injection Hsel as <-.
    exists (errOther "i/o timeout"). split; [reflexivity | discriminate].
  - intros h w0 w' Hsel. injection Hsel as <-. simpl.
    unfold Second, Millisecond. lia.
  - exists e, w'. split; [apply Hrun; lia|].
    change (now world0) with 0 in Hnow.
    unfold defaultTimeout, Second, Millisecond in *. lia.
Defined.

Lemma mismatch_answers_formerr_witness :
  exists w',
    ServeDNS 2 (serving confused_host) query world0
      = Some (Returned 0 None, w') /\
    fails w' = fails world0.
Proof.
  destruct (mismatch_answers_formerr 1 (serving confused_host)
              (pool_of confused_host) confused_host query stray (ok stray)
              1 0 None world0 (first_try confused_host world0))
    as (_ & Hserve & _ & _ & _ & _ & _ & _ & _ & Hfails).
  - reflexivity.
  - simpl. lia.
  - reflexivity.
  - reflexivity.
  - reflexivity.
  - reflexivity.
  - reflexivity.
  - eexists. split; [exact Hserve|]. apply Hfails. reflexivity.
Defined.

(** C4 as stated fails: this pool has a failure threshold above zero, the
    four exchanges of the request all fail with a timeout, and no counter
    moves, no goroutine is started and no probe is made, because the pool
    has no check interval. *)
Lemma unchecked_pool_counts_nothing :
  0 < maxFails (unchecked_pool dead_host) /\
  exists w',
    ServeDNS 6 (router [Reloadable (unchecked_pool dead_host)]) query world0
      = Some (Returned RcodeServerFailure (Some (errOther "i/o timeout")), w') /\
    trace w' =
      [EvSelect 7 (Some 4%nat); EvExchange 4 (Some (errOther "i/o timeout"));
       EvSelect 7 (Some 4%nat); EvExchange 4 (Some (errOther "i/o timeout"));
       EvSelect 7 (Some 4%nat); EvExchange 4 (Some (errOther "i/o timeout"));
       EvSelect 7 (Some 4%nat); EvExchange 4 (Some (errOther "i/o timeout"))] /\
    load_fails 4 w' = 0 /\ sleeping w' = [] /\ probes w' = [].
Proof.
  split; [done|]. eexists. split; [vm_compute; reflexivity|]. by vm_compute.
Qed.

Lemma generic_failure_is_counted_witness :
  load_fails 4 first_failure = 1 /\
  sleeping first_failure =
    [{| wake := 6 * Second; task_host := 4; task_fails := 1 |}] /\
  probes first_failure = [].
Proof.
  destruct (generic_failure_is_counted 1 (serving dead_host)
              (pool_of dead_host) dead_host query timeout
              (errOther "i/o timeout") 1 None world0
              (first_try dead_host world0))
    as (_ & _ & Hfails & _ & _ & _ & Hsleep & Hprobes & _).
  - simpl. unfold Second, Millisecond. lia.
  - simpl. lia.
  - simpl. lia.
  - reflexivity.
  - reflexivity.
  - reflexivity.
  - split; [exact Hfails|]. split; [exact Hsleep | exact Hprobes].
Defined.

Lemma match_returns_first_pool_witness :
  match_ (router [Reloadable (pool_of good_host);
                  Reloadable (pool 8 (Some dead_host) 3 0)])
    "www.example.org." world0
  = Val (Some (Reloadable (pool_of good_host)), 0).
Proof.
  destruct (match_returns_first_pool
              (router [Reloadable (pool_of good_host);
                       Reloadable (pool 8 (Some dead_host) 3 0)])
              [Reloadable (pool_of good_host);
               Reloadable (pool 8 (Some dead_host) 3 0)]
              "www.example.org." world0 eq_refl)
    as (_ & _ & Hfirst & _).
  apply (Hfirst [] (Reloadable (pool_of good_host))
           [Reloadable (pool 8 (Some dead_host) 3 0)]).
  - reflexivity.
  - constructor.
  - reflexivity.
Defined.

Lemma no_healthy_upstream_is_final_witness :
  ServeDNS 1 (router [Reloadable empty_pool]) query world0
  = Some (Returned RcodeServerFailure (Some errNoHealthy),
          record (EvSelect 7 None) world0).
Proof.
  destruct (no_healthy_upstream_is_final 0 (router [Reloadable empty_pool])
              empty_pool query 1 0 None world0)
    as (_ & Hserve & _).
  - reflexivity.
  - simpl. lia.
  - reflexivity.
  - exact Hserve.
Defined.

Lemma ttl_rewrite_clamps_witness :
  serve_loop 2 (serving good_host) (pool_of good_host) query 1 None loading
  = Some (Returned 0 None,
          record (EvWriteMsg (rewriteToMinimalTTLs answer 5))
            (first_try good_host loading)).
Proof.
  destruct (ttl_rewrite_clamps 1 (serving good_host) (pool_of good_host)
              good_host query answer (ok answer) 1 None loading
              (first_try good_host loading))
    as (_ & _ & Hloading & _).
  - simpl. lia.
  - reflexivity.
  - reflexivity.
  - reflexivity.
  - reflexivity.
  - reflexivity.
  - apply Hloading. reflexivity.
Defined.

Lemma population_flag_is_a_latch_witness :
  urlInitialInProgress (serving good_host) loading = (Val true, loading) /\
  urlInitialInProgress (serving good_host) world0
    = (Val false, set_initialFinished 1 world0) /\
  urlInitialInProgress (serving good_host)
    (set_initialCount (initialCount loading) (set_initialFinished 1 world0))
    = (Val false,
       set_initialCount (initialCount loading) (set_initialFinished 1 world0)).
Proof.
  destruct (population_flag_is_a_latch (serving good_host)
              [pool_of good_host] loading eq_refl)
    as (_ & Hloading & _).
  destruct (population_flag_is_a_latch (serving good_host)
              [pool_of good_host] world0 eq_refl)
    as (_ & _ & Hloaded & _).
  split; [|split].
  - apply Hloading; [reflexivity|]. constructor. by vm_compute.
  - apply Hloaded; [reflexivity|]. by repeat constructor.
  - apply Hloaded; [reflexivity|]. by repeat constructor.
Defined.

(** C9 as stated fails: the reply is truncated, the transport neither
    forces TCP nor prefers UDP, and the loop leaves without a warning. *)
Lemma plain_udp_truncation_is_silent :
  is_truncated (reply (Exchange (short_host udp) query world0)) = true /\
  forceTcp (transport (short_host udp)) = false /\
  preferUdp (transport (short_host udp)) = false /\
  exists w',
    exchange_loop 1 (short_host udp) query world0
      = Some (ok truncated_answer, w') /\
    warnings w' = [].
Proof. repeat split. eexists. split; reflexivity. Qed.

Lemma truncation_is_not_retried_witness :
  exists w',
    exchange_loop 1 (short_host udp_first) query world0
      = Some (ok truncated_answer, w') /\
    trace w' = [EvExchange 6 None] /\
    warnings w' = [WarnRetryWithTCP].
Proof.
  destruct (truncation_is_not_retried 0 (short_host udp_first) query world0)
    as (w' & Hrun & Htr & _ & Hwarn & _).
  - reflexivity.
  - exists w'. split; [exact Hrun|]. split; [exact Htr|].
    apply Hwarn; reflexivity.
Defined.

Lemma own_reply_reports_success_witness :
  exists out w',
    ServeDNS 2 (serving confused_host) query world0 = Some (out, w') /\
    writes w' =
      [EvWriteMsg (SetRcode new_Msg query RcodeFormatError)] /\
    out = Returned 0 None.
Proof.
  exists (Returned 0 None),
    (record (EvWriteMsg (SetRcode new_Msg query RcodeFormatError))
       (first_try confused_host world0)).
  split; [reflexivity|]. split; [reflexivity|].
  apply (own_reply_reports_success 2 (serving confused_host)
           (pool_of confused_host) query 0 world0
           (record (EvWriteMsg (SetRcode new_Msg query RcodeFormatError))
              (first_try confused_host world0))
           (Returned 0 None)).
  - reflexivity.
  - reflexivity.
  - discriminate.
Defined.

(** * Further properties of the code *)

(** ** rewriteToMinimalTTLs *)

Lemma clamp_clamp C1 C2 rr :
  clamp C2 (clamp C1 rr) = clamp (Z.min C1 C2) rr.
Proof.
  unfold clamp, set_Ttl, MinUint32. simpl. by rewrite Z.min_assoc.
Qed.

Lemma clamp_extra_clamp_extra C1 C2 rr :
  clamp_extra C2 (clamp_extra C1 rr) = clamp_extra (Z.min C1 C2) rr.
Proof.
  unfold clamp_extra.
  destruct (Z.eqb_spec (Rrtype (Header rr)) TypeOPT) as [Hopt|Hopt]; simpl.
  - by rewrite (proj2 (Z.eqb_eq _ _) Hopt).
  - rewrite (proj2 (Z.eqb_neq _ _) Hopt). simpl. apply clamp_clamp.
Qed.

(** X1.  Rewriting for one ceiling and then for another is rewriting for the
    smaller of the two; in particular a second rewrite for the same
    ceiling changes nothing. *)
Theorem rewrite_twice (m : Msg) (C1 C2 : Z) :
  rewriteToMinimalTTLs (rewriteToMinimalTTLs m C1) C2
    = rewriteToMinimalTTLs m (Z.min C1 C2) /\
  rewriteToMinimalTTLs (rewriteToMinimalTTLs m C1) C1
    = rewriteToMinimalTTLs m C1.
Proof.
  assert (forall D1 D2,
            rewriteToMinimalTTLs (rewriteToMinimalTTLs m D1) D2
            = rewriteToMinimalTTLs m (Z.min D1 D2)) as Hcomp.
  { intros D1 D2. unfold rewriteToMinimalTTLs. simpl. rewrite !List.map_map.
    f_equal; apply List.map_ext; intros rr;
      auto using clamp_clamp, clamp_extra_clamp_extra. }
  split; [apply Hcomp|]. by rewrite Hcomp, Z.min_id.
Qed.

Lemma clamp_below C rr : Ttl (Header rr) <= C -> clamp C rr = rr.
Proof.
  intros Hle. destruct rr as [[n t c ttl] d]. unfold clamp, set_Ttl, MinUint32.
  simpl in *. by rewrite Z.min_l.
Qed.

Lemma map_fixed {A : Type} (f : A -> A) (l : list A) :
  Forall (fun x => f x = x) l -> map f l = l.
Proof. induction 1 as [|x l Hx _ IH]; simpl; [done|]. by rewrite Hx, IH. Qed.

(** X2.  A reply none of whose TTLs is above the ceiling (the OPT records of
    the additional section apart, whatever they hold) comes out of the
    rewrite as it went in. *)
Theorem rewrite_below_ceiling (m : Msg) (C : Z) :
  Forall (fun rr => Ttl (Header rr) <= C) (Answer m) ->
  Forall (fun rr => Ttl (Header rr) <= C) (Ns m) ->
  Forall (fun rr => Rrtype (Header rr) = TypeOPT \/ Ttl (Header rr) <= C)
    (Extra m) ->
  rewriteToMinimalTTLs m C = m.
Proof.
  intros Han Hns Hex. destruct m. unfold rewriteToMinimalTTLs. simpl in *.
  f_equal; apply map_fixed.
  - eapply Forall_impl; [exact Han|]. intros rr. apply clamp_below.
  - eapply Forall_impl; [exact Hns|]. intros rr. apply clamp_below.
  - eapply Forall_impl; [exact Hex|]. intros rr [Hopt|Hle]; unfold clamp_extra.
    + by rewrite (proj2 (Z.eqb_eq _ _) Hopt).
    + destruct (Z.eqb_spec (Rrtype (Header rr)) TypeOPT); simpl; [done|].
      by apply clamp_below.
Qed.

Lemma rewrite_below_ceiling_witness :
  rewriteToMinimalTTLs answer 86400 = answer.
Proof.
  apply rewrite_below_ceiling.
  - repeat constructor; simpl; lia.
  - repeat constructor; simpl; lia.
  - constructor; [right; simpl; lia|].
    constructor; [left; reflexivity|]. constructor.
Defined.

(** ** urlInitialInProgress *)

(** X3.  Asking again right away gives the same answer and changes nothing
    more: the first call has done whatever there was to do. *)
Theorem urlInitialInProgress_again (r : Dnsredir) (w : World) :
  urlInitialInProgress r (urlInitialInProgress r w).2
    = urlInitialInProgress r w.
Proof.
  unfold urlInitialInProgress at 2 3.
  destruct (Z.eqb_spec (initialFinished w) 0) as [Hclear|Hset]; simpl.
  - destruct (Upstreams r) as [ups|] eqn:Hups; simpl.
    + destruct (initial_scan ups w) as [[]|msg] eqn:Hscan; simpl.
      * unfold urlInitialInProgress. by rewrite Hclear, Hups, Hscan.
      * by rewrite urlInitialInProgress_latched.
      * unfold urlInitialInProgress. by rewrite Hclear, Hups, Hscan.
    + unfold urlInitialInProgress. by rewrite Hclear, Hups.
  - by rewrite urlInitialInProgress_latched.
Qed.

Lemma initial_scan_reloadable (us : list reloadableUpstream) w :
  initial_scan (Reloadable <$> us) w =
  Val (bool_decide (Exists (fun u => load_initialCount (upid u) w <> 0) us)).
Proof.
  destruct (decide (Exists (fun u => load_initialCount (upid u) w <> 0) us))
    as [Hsome|Hnone].
  - by rewrite initial_scan_loading, bool_decide_eq_true_2.
  - rewrite bool_decide_eq_false_2 by done.
    apply initial_scan_loaded. apply Forall_forall. intros u Hu.
    destruct (decide (load_initialCount (upid u) w = 0)) as [|Hne]; [done|].
    exfalso. apply Hnone. apply Exists_exists. eauto.
Qed.

(** X4.  Unlike [match], the population check does not care in which order the
    pools are listed: two routers over the same pools of this package, in
    any order, get the same answer and the same effect. *)
Theorem urlInitialInProgress_any_order
    (r r' : Dnsredir) (us us' : list reloadableUpstream) (w : World) :
  Upstreams r = Some (Reloadable <$> us) ->
  Upstreams r' = Some (Reloadable <$> us') ->
  us ≡ₚ us' ->
  urlInitialInProgress r w = urlInitialInProgress r' w.
Proof.
  intros Hr Hr' Hperm. unfold urlInitialInProgress.
  rewrite Hr, Hr', !initial_scan_reloadable.
  assert (Exists (fun u => load_initialCount (upid u) w <> 0) us <->
          Exists (fun u => load_initialCount (upid u) w <> 0) us') as Hiff.
  { rewrite !Exists_exists. by setoid_rewrite Hperm. }
  by rewrite (bool_decide_ext _ _ Hiff).
Qed.

Lemma urlInitialInProgress_any_order_witness :
  urlInitialInProgress
    (router [Reloadable (pool_of good_host); Reloadable (pool 8 None 0 0)])
    loading
  = urlInitialInProgress
      (router [Reloadable (pool 8 None 0 0); Reloadable (pool_of good_host)])
      loading.
Proof.
  apply (urlInitialInProgress_any_order _ _
           [pool_of good_host; pool 8 None 0 0]
           [pool 8 None 0 0; pool_of good_host]).
  - reflexivity.
  - reflexivity.
  - apply Permutation_swap.
Defined.

(** ** OnStartup and OnShutdown *)

Section LifecycleFacts.

Context `{Lifecycle}.

Lemma start_all_app l1 l2 w :
  start_all (l1 ++ l2) w =
  match start_all l1 w with
  | (Some e, w1) => (Some e, w1)
  | (None, w1) => start_all l2 w1
  end.
Proof.
  revert w. induction l1 as [|up l1 IH]; intros w; simpl; [done|].
  destruct (Start up w) as [[e|] w1]; [done|]. apply IH.
Qed.

Lemma stop_all_app l1 l2 w :
  stop_all (l1 ++ l2) w =
  match stop_all l1 w with
  | (Some e, w1) => (Some e, w1)
  | (None, w1) => stop_all l2 w1
  end.
Proof.
  revert w. induction l1 as [|up l1 IH]; intros w; simpl; [done|].
  destruct (Stop up w) as [[e|] w1]; [done|]. apply IH.
Qed.

(** X6.  [OnStartup] stops at the first pool that fails to start: it returns
    that pool's error, the pools before it stay started, and the pools
    after it are not touched, whatever they are. *)
Theorem OnStartup_first_failure
    (r : Dnsredir) (l1 l2 : list Upstream) (up : Upstream) (e : error)
    (w w1 w2 : World) :
  Upstreams r = Some (l1 ++ up :: l2) ->
  start_all l1 w = (None, w1) ->
  Start up w1 = (Some e, w2) ->
  OnStartup r w = (Val (Some e), w2) /\
  forall r' l2',
    Upstreams r' = Some (l1 ++ up :: l2') ->
    OnStartup r' w = (Val (Some e), w2).
Proof.
  intros Hr Hl1 Hup.
  assert (forall l, start_all (l1 ++ up :: l) w = (Some e, w2)) as Hall.
  { intros l. rewrite start_all_app, Hl1. simpl. by rewrite Hup. }
  split.
  - unfold OnStartup. by rewrite Hr, Hall.
  - intros r' l2' Hr'. unfold OnStartup. by rewrite Hr', Hall.
Qed.

(** X7.  [OnStartup] reports success exactly when every pool started, each in
    the world the pools before it left behind; the router over [l1 ++ l2]
    then starts as the one over [l1] followed by the one over [l2]. *)
Theorem OnStartup_all_started
    (r r1 r2 : Dnsredir) (l1 l2 : list Upstream) (w w2 : World) :
  Upstreams r = Some (l1 ++ l2) ->
  Upstreams r1 = Some l1 ->
  Upstreams r2 = Some l2 ->
  (OnStartup r w = (Val None, w2) <->
   exists w1, OnStartup r1 w = (Val None, w1) /\
              OnStartup r2 w1 = (Val None, w2)).
Proof.
  intros Hr Hr1 Hr2. unfold OnStartup. rewrite Hr, Hr1, Hr2, start_all_app.
  destruct (start_all l1 w) as [[e|] w1'] eqn:Hl1.
  - split; [done|]. by intros (w1'' & [=] & _).
  - split.
    + intros Hl2. exists w1'. split; [done|].
      by destruct (start_all l2 w1') as [[]?].
    + intros (w1'' & [= <-] & Hl2).
      by destruct (start_all l2 w1') as [[]?].
Qed.

(** X8.  [OnShutdown] stops at the first pool that fails to stop, in the same
    way: the pools after it are left running. *)
Theorem OnShutdown_first_failure
    (r : Dnsredir) (l1 l2 : list Upstream) (up : Upstream) (e : error)
    (w w1 w2 : World) :
  Upstreams r = Some (l1 ++ up :: l2) ->
  stop_all l1 w = (None, w1) ->
  Stop up w1 = (Some e, w2) ->
  OnShutdown r w = (Val (Some e), w2) /\
  forall r' l2',
    Upstreams r' = Some (l1 ++ up :: l2') ->
    OnShutdown r' w = (Val (Some e), w2).
Proof.
  intros Hr Hl1 Hup.
  assert (forall l, stop_all (l1 ++ up :: l) w = (Some e, w2)) as Hall.
  { intros l. rewrite stop_all_app, Hl1. simpl. by rewrite Hup. }
  split.
  - unfold OnShutdown. by rewrite Hr, Hall.
  - intros r' l2' Hr'. unfold OnShutdown. by rewrite Hr', Hall.
Qed.

End LifecycleFacts.

(** ** healthCheck and its goroutines *)










(** ** The dispatch loop *)

Lemma protocol_app pool count p l1 l2 :
  protocol pool count p (l1 ++ l2) =
  match protocol pool count p l1 with
  | Some q => protocol pool count q l2
  | None => None
  end.
Proof.
  revert p. induction l1 as [|e l1 IH]; intros p; simpl; [done|].
  destruct (protocol_step pool count p e); [apply IH|done].
Qed.

Lemma exchange_loop_protocol pool count fuel host req :
  forall w res w',
    exchange_loop fuel host req w = Some (res, w') ->
    exists evs,
      trace w' = trace w ++ evs /\
      protocol pool count (Picked (hid host)) evs
        = Some (exchanged count (hid host) (err res)).
Proof.
  induction fuel as [|fuel IH]; intros w res w' Hrun; [done|].
  rewrite exchange_loop_unfold in Hrun.
  destruct (is_errCachedConnClosed _) eqn:Hc.
  - apply IH in Hrun as (evs & Htr & Hp).
    exists (EvExchange (hid host) (err (Exchange host req w)) :: evs). split.
    + rewrite Htr, do_Exchange_trace. by rewrite <- app_assoc.
    + simpl. rewrite Nat.eqb_refl.
      apply is_closed_Some in Hc. by rewrite Hc.
  - assert (res = Exchange host req w) as -> by congruence.
    assert (w' = note_truncation host (Exchange host req w)
                   (do_Exchange host req w).2) as -> by congruence.
    exists [EvExchange (hid host) (err (Exchange host req w))]. split.
    + by rewrite note_truncation_trace, do_Exchange_trace.
    + simpl. by rewrite Nat.eqb_refl.
Qed.

Lemma on_failure_protocol u host e w :
  e <> errCachedConnClosed ->
  exists evs,
    trace (on_failure u host e w) = trace w ++ evs /\
    protocol (upid u) (counting u)
      (exchanged (counting u) (hid host) (Some e)) evs = Some Idle.
Proof.
  intros Hne. unfold on_failure, counting.
  destruct (Z.eqb_spec (maxFails u) 0) as [Hm|Hm]; simpl.
  - exists []. rewrite app_nil_r. by destruct e.
  - destruct (Z.eqb_spec (checkInterval u) 0) as [Hi|Hi]; simpl.
    + rewrite healthCheck_off by auto. exists []. rewrite app_nil_r.
      by destruct e.
    + rewrite healthCheck_on by done. eexists [_]. split; [done|].
      destruct e; try done; simpl; by rewrite Nat.eqb_refl.
Qed.

Lemma exchange_loop_quiet fuel host req :
  forall w res w',
    sleeping w = [] ->
    exchange_loop fuel host req w = Some (res, w') ->
    fails w' = fails w /\ sleeping w' = [] /\ probes w' = probes w.
Proof.
  induction fuel as [|fuel IH]; intros w res w' Hs Hrun; [done|].
  rewrite exchange_loop_unfold in Hrun.
  assert (fails (do_Exchange host req w).2 = fails w /\
          sleeping (do_Exchange host req w).2 = [] /\
          probes (do_Exchange host req w).2 = probes w) as (Hf & Hsl & Hp).
  { unfold do_Exchange. simpl. by rewrite elapse_quiet. }
  destruct (is_errCachedConnClosed _).
  - apply IH in Hrun as (-> & -> & ->); done.
  - assert (w' = note_truncation host (Exchange host req w)
                   (do_Exchange host req w).2) as -> by congruence.
    unfold note_truncation. by destruct (_ && _).
Qed.

Section LoopFacts.

Context `{RequestLib}.

Lemma deliver_quiet r req m w :
  sleeping (deliver r req m w).2 = sleeping w /\
  probes (deliver r req m w).2 = probes w.
Proof.
  unfold deliver. destruct (state_Match req m); simpl; [|done].
  unfold urlInitialInProgress.
  destruct (negb _); [done|]. destruct (Upstreams r) as [ups|]; [|done].
  by destruct (initial_scan ups w) as [[]|].
Qed.

(** X11.  A pool without failure threshold or without check interval: a request
    served from it moves no failure counter, starts no goroutine and
    causes no probe, however many of its exchanges fail. *)
Theorem no_accounting_without_health_checks
    (fuel : nat) (r : Dnsredir) (u : reloadableUpstream) (req : Msg)
    (deadline : Z) (ue : option error) (w w' : World) (out : Outcome) :
  maxFails u = 0 \/ checkInterval u = 0 ->
  sleeping w = [] ->
  serve_loop fuel r u req deadline ue w = Some (out, w') ->
  fails w' = fails w /\ sleeping w' = [] /\ probes w' = probes w.
Proof.
  intros Hoff. revert ue w.
  induction fuel as [|fuel IH]; intros ue w Hs Hrun; [done|].
  rewrite serve_loop_unfold in Hrun.
  destruct (now w <? deadline).
  - destruct (upSelect u w) as [host|].
    + destruct (exchange_loop fuel host req _) as [[res w1]|] eqn:Hloop;
        [|done].
      apply exchange_loop_quiet in Hloop as (Hf & Hsl & Hp); [|done].
      simpl in Hf, Hp.
      destruct (err res) as [e|].
      * assert (fails (on_failure u host e w1) = fails w1 /\
                sleeping (on_failure u host e w1) = sleeping w1 /\
                probes (on_failure u host e w1) = probes w1)
          as (Hf2 & Hsl2 & Hp2).
        { unfold on_failure. destruct (negb _); [|done].
          rewrite healthCheck_off; [done|tauto]. }
        apply IH in Hrun as (-> & -> & ->); [|congruence].
        split; [congruence|]. split; [done|congruence].
      * destruct (reply res) as [m|].
        -- assert (w' = (deliver r req m w1).2) as ->
             by (injection Hrun as ->; done).
           destruct (deliver_cases r req m w1) as (_ & -> & _).
           destruct (deliver_quiet r req m w1) as (-> & ->).
           split; [done|]. split; done.
        -- by injection Hrun as <- <-.
    + by injection Hrun as <- <-.
  - by destruct ue; injection Hrun as <- <-.
Qed.

(** X12.  The calls of a request come in one order only.  What a run of the
    loop adds to the trace is accepted by [protocol]: a selection, then
    exchanges with the host selected and no other, as long as they report
    the closed cached connection; after any other error the failure is
    counted against that host when the pool counts failures, and the next
    selection follows; after an answer at most one reply is written and
    nothing comes after it; after a selection that found no host nothing
    comes at all.  The run ends with a reply written exactly when it
    returns 0 and no error, and never between a selection and the first
    exchange or between a failure and its accounting. *)
Theorem calls_follow_the_protocol
    (fuel : nat) (r : Dnsredir) (u : reloadableUpstream) (req : Msg)
    (deadline : Z) (ue : option error) (w w' : World) (out : Outcome) :
  serve_loop fuel r u req deadline ue w = Some (out, w') ->
  exists evs p,
    trace w' = trace w ++ evs /\
    protocol (upid u) (counting u) Idle evs = Some p /\
    match p with
    | Written => out = Returned 0 None
    | NoHost => out = Returned RcodeServerFailure (Some errNoHealthy)
    | Answered _ => exists msg, out = Panicked msg
    | Idle =>
        (exists e, out = Returned RcodeServerFailure (Some e)) \/
        out = Panicked why_nil
    | Picked _ | Failed _ => False
    end.
Proof.
  revert ue w. induction fuel as [|fuel IH]; intros ue w Hrun; [done|].
  rewrite serve_loop_unfold in Hrun.
  destruct (now w <? deadline).
  - destruct (upSelect u w) as [host|].
    + destruct (exchange_loop fuel host req _) as [[res w1]|] eqn:Hloop;
        [|done].
      pose proof (exchange_loop_trace _ _ _ _ _ _ Hloop) as (Hnc & _).
      apply (exchange_loop_protocol (upid u) (counting u)) in Hloop
        as (evs1 & Htr1 & Hp1).
      simpl in Htr1.
      destruct (err res) as [e|] eqn:Herr.
      * destruct (on_failure_protocol u host e w1) as (evs2 & Htr2 & Hp2).
        { intros ->. done. }
        apply IH in Hrun as (evs3 & p & Htr3 & Hp3 & Hend).
        exists (EvSelect (upid u) (Some (hid host)) :: evs1 ++ evs2 ++ evs3), p.
        split; [|split; [|done]].
        -- rewrite Htr3, Htr2, Htr1. by rewrite <- !app_assoc.
        -- simpl. rewrite Nat.eqb_refl, protocol_app, Hp1. cbv beta iota.
           by rewrite protocol_app, Hp2.
      * destruct (reply res) as [m|].
        -- assert (out = (deliver r req m w1).1 /\ w' = (deliver r req m w1).2)
             as [-> ->] by (injection Hrun as ->; done).
           destruct (deliver_cases r req m w1)
             as (_ & _ & _ & [[Hout [m' Htr]] | [[msg Hout] Htr]]).
           ++ exists (EvSelect (upid u) (Some (hid host))
                        :: evs1 ++ [EvWriteMsg m']), Written.
              split; [|split; [|done]].
              ** rewrite Htr, Htr1. by rewrite <- !app_assoc.
              ** simpl. rewrite Nat.eqb_refl, protocol_app, Hp1. done.
           ++ exists (EvSelect (upid u) (Some (hid host)) :: evs1),
                (Answered (hid host)).
              split; [|split; [|by eauto]].
              ** rewrite Htr, Htr1. by rewrite <- !app_assoc.
              ** simpl. by rewrite Nat.eqb_refl, Hp1.
        -- injection Hrun as <- <-.
           exists (EvSelect (upid u) (Some (hid host)) :: evs1),
             (Answered (hid host)).
           split; [|split; [|by eauto]].
           ++ rewrite Htr1. by rewrite <- !app_assoc.
           ++ simpl. by rewrite Nat.eqb_refl, Hp1.
    + injection Hrun as <- <-. exists [EvSelect (upid u) None], NoHost.
      split; [done|]. split; [|done]. simpl. by rewrite Nat.eqb_refl.
  - exists [], Idle. rewrite app_nil_r.
    destruct ue; injection Hrun as <- <-; (split; [done|]); (split; [done|]);
      [left; eauto | by right].
Qed.

End LoopFacts.

Lemma initial_scan_panic ups w msg :
  initial_scan ups w = Panic msg ->
  msg = "interface conversion: Upstream is not *reloadableUpstream".
Proof.
  induction ups as [|[up|m] ups IH]; simpl; [done| |congruence].
  destruct (negb _); [done|apply IH].
Qed.

Section OutcomeFacts.

Context `{RequestLib}.

Lemma deliver_panic r req m w msg :
  (deliver r req m w).1 = Panicked msg -> msg <> why_nil.
Proof.
  unfold deliver. destruct (state_Match req m); simpl; [|done].
  unfold urlInitialInProgress.
  destruct (negb _); [done|]. destruct (Upstreams r) as [ups|]; simpl.
  - destruct (initial_scan ups w) as [[]|msg'] eqn:Hscan; simpl; try done.
    intros [= <-]. by rewrite (initial_scan_panic _ _ _ Hscan).
  - by intros [= <-].
Qed.

Lemma serve_loop_outcomes r u req deadline :
  forall fuel ue w out w',
    now w < deadline \/ (exists e, ue = Some e /\ e <> errCachedConnClosed) ->
    serve_loop fuel r u req deadline ue w = Some (out, w') ->
    out = Returned 0 None \/
    (exists e, out = Returned RcodeServerFailure (Some e) /\
               e <> errCachedConnClosed) \/
    (exists msg, out = Panicked msg /\ msg <> why_nil).
Proof.
  induction fuel as [|fuel IH]; intros ue w out w' Hue Hrun; [done|].
  rewrite serve_loop_unfold in Hrun.
  destruct (Z.ltb_spec (now w) deadline) as [Hlt|Hge].
  - destruct (upSelect u w) as [host|].
    + destruct (exchange_loop fuel host req _) as [[res w1]|] eqn:Hloop;
        [|done].
      apply exchange_loop_trace in Hloop as (Hnc & _).
      destruct (err res) as [e|].
      * apply IH in Hrun; [done|]. right. exists e. split; [done|].
        by intros ->.
      * destruct (reply res) as [m|].
        -- assert (out = (deliver r req m w1).1) as ->
             by (injection Hrun as ->; done).
           destruct (deliver_cases r req m w1)
             as (_ & _ & _ & [[Hout _] | [[msg Hout] _]]); [by left|].
           right. right. exists msg. split; [done|].
           by apply (deliver_panic r req m w1).
        -- injection Hrun as <- <-. right. right. by eexists.
    + injection Hrun as <- <-. right. left. by eexists.
  - destruct Hue as [?|(e & -> & Hne)]; [lia|].
    injection Hrun as <- <-. right. left. by eexists.
Qed.

(** X13.  What a request whose pool matched can come back with: 0 and no error;
    the server-failure code with an error, which is never the closed
    cached connection; or a panic.  No other code is returned, and no
    error comes with code 0.  With the clock of this model, which does
    not move between the computation of the deadline and its first test,
    the panic is never the one of line 132: the loop cannot run out of
    time before it has seen an error. *)
Theorem matched_request_outcomes
    (fuel : nat) (r : Dnsredir) (u : reloadableUpstream) (req : Msg) (t : Z)
    (w w' : World) (out : Outcome) :
  match_ r (state_Name req) w = Val (Some (Reloadable u), t) ->
  ServeDNS fuel r req w = Some (out, w') ->
  out = Returned 0 None \/
  (exists e, out = Returned RcodeServerFailure (Some e) /\
             e <> errCachedConnClosed) \/
  (exists msg, out = Panicked msg /\ msg <> why_nil).
Proof.
  intros Hm Hrun. rewrite (ServeDNS_matched _ _ _ _ _ _ Hm) in Hrun.
  eapply serve_loop_outcomes; [|exact Hrun].
  left. pose proof defaultTimeout_pos. lia.
Qed.

End OutcomeFacts.

(** ** Faults of construction and the setting of the latch *)

Lemma initial_scan_done ups w :
  initial_scan ups w = Val false ->
  Forall (fun up =>
            match up with
            | Reloadable u => load_initialCount (upid u) w = 0
            | Foreign _ => False
            end) ups.
Proof.
  induction ups as [|[u|m] ups IH]; simpl; [by constructor| |done].
  destruct (Z.eqb_spec (load_initialCount (upid u) w) 0); simpl; [|done].
  intros Hrest. constructor; auto.
Qed.

(** X5.  The population check changes the flag only to set it, and sets it only
    when it answers false after having found every pool to be one of this
    package with nothing left to load. *)
Theorem latch_is_set_only_when_loaded
    (r : Dnsredir) (w w' : World) (b : Result bool) :
  urlInitialInProgress r w = (b, w') ->
  initialFinished w' <> initialFinished w ->
  b = Val false /\
  initialFinished w = 0 /\ initialFinished w' = 1 /\
  exists ups,
    Upstreams r = Some ups /\
    Forall (fun up =>
              match up with
              | Reloadable u => load_initialCount (upid u) w = 0
              | Foreign _ => False
              end) ups.
Proof.
  unfold urlInitialInProgress.
  destruct (Z.eqb_spec (initialFinished w) 0) as [Hclear|Hset]; simpl.
  - destruct (Upstreams r) as [ups|].
    + destruct (initial_scan ups w) as [[]|msg] eqn:Hscan;
        intros Heq; injection Heq as <- <-; try done.
      intros _. repeat split; [done|]. exists ups. split; [done|].
      by apply initial_scan_done.
    + intros Heq. by injection Heq as <- <-.
  - intros Heq. by injection Heq as <- <-.
Qed.

Section FaultFacts.

Context `{RequestLib}.

(** X14.  A router whose first pool accepting the name of the request is not
    one of this package panics on the request: it records nothing, does
    not go on to a later pool that would accept the name, and does not
    hand the request to the next handler. *)
Theorem foreign_pool_panics
    (fuel : nat) (r : Dnsredir) (l1 l2 : list Upstream) (m : string -> bool)
    (req : Msg) (w : World) :
  let n :=
    if (1 <? String.length (state_Name req))%nat
    then removeTrailingDot (state_Name req) else state_Name req in
  Upstreams r = Some (l1 ++ Foreign m :: l2) ->
  Forall (fun x => Match x n = false) l1 ->
  m n = true ->
  exists msg, ServeDNS fuel r req w = Some (Panicked msg, w).
Proof.
  intros n Hups Hl1 Hm.
  assert (match_scan (l1 ++ Foreign m :: l2) n = Some (Foreign m)) as Hscan.
  { clear Hups. induction Hl1 as [|x l1 Hx _ IH]; simpl.
    - by rewrite Hm.
    - rewrite Hx. exact IH. }
  unfold ServeDNS, match_. rewrite Hups. fold n. rewrite Hscan. by eexists.
Qed.

End FaultFacts.

(** ** The further properties on the sample deployment *)

#[local] Existing Instance Sample.lifecycle.



Lemma no_accounting_without_health_checks_witness :
  exists out w',
    serve_loop 6 (router [Reloadable (unchecked_pool dead_host)])
      (unchecked_pool dead_host) query (15 * Second) None world0
      = Some (out, w') /\
    fails w' = fails world0 /\ sleeping w' = [] /\ probes w' = probes world0.
Proof.
  destruct (serve_loop 6 (router [Reloadable (unchecked_pool dead_host)])
              (unchecked_pool dead_host) query (15 * Second) None world0)
    as [[out w']|] eqn:Hrun; [|vm_compute in Hrun; discriminate].
  exists out, w'. split; [reflexivity|].
  apply (no_accounting_without_health_checks 6
           (router [Reloadable (unchecked_pool dead_host)])
           (unchecked_pool dead_host) query (15 * Second) None world0 w' out).
  - right. reflexivity.
  - reflexivity.
  - exact Hrun.
Defined.

Lemma calls_follow_the_protocol_witness :
  exists out w' evs p,
    serve_loop 6 (serving dead_host) (pool_of dead_host) query (15 * Second)
      None world0 = Some (out, w') /\
    trace w' = trace world0 ++ evs /\
    protocol 7 true Idle evs = Some p.
Proof.
  destruct (serve_loop 6 (serving dead_host) (pool_of dead_host) query
              (15 * Second) None world0)
    as [[out w']|] eqn:Hrun; [|vm_compute in Hrun; discriminate].
  destruct (calls_follow_the_protocol 6 (serving dead_host)
              (pool_of dead_host) query (15 * Second) None world0 w' out Hrun)
    as (evs & p & Htr & Hp & _).
  exists out, w', evs, p. split; [reflexivity|]. split; [exact Htr|exact Hp].
Defined.

Lemma matched_request_outcomes_witness :
  exists out w',
    ServeDNS 6 (serving dead_host) query world0 = Some (out, w') /\
    (out = Returned 0 None \/
     (exists e, out = Returned RcodeServerFailure (Some e) /\
                e <> errCachedConnClosed) \/
     (exists msg, out = Panicked msg /\ msg <> why_nil)).
Proof.
  destruct (ServeDNS 6 (serving dead_host) query world0)
    as [[out w']|] eqn:Hrun; [|vm_compute in Hrun; discriminate].
  exists out, w'. split; [reflexivity|].
  apply (matched_request_outcomes 6 (serving dead_host) (pool_of dead_host)
           query 0 world0 w' out).
  - reflexivity.
  - exact Hrun.
Defined.

Lemma OnStartup_first_failure_witness :
  OnStartup
    (router [Reloadable (pool_of good_host); Reloadable (pool 9 None 0 0);
             Reloadable (pool 8 None 0 0)])
    world0
  = (Val (Some (errOther "cannot load")), loading).
Proof.
  destruct (OnStartup_first_failure
              (router [Reloadable (pool_of good_host);
                       Reloadable (pool 9 None 0 0);
                       Reloadable (pool 8 None 0 0)])
              [Reloadable (pool_of good_host)] [Reloadable (pool 8 None 0 0)]
              (Reloadable (pool 9 None 0 0)) (errOther "cannot load")
              world0 loading loading)
    as (Hfail & _).
  - reflexivity.
  - reflexivity.
  - reflexivity.
  - exact Hfail.
Defined.

Lemma OnStartup_all_started_witness :
  OnStartup
    (router [Reloadable (pool_of good_host); Reloadable (pool 8 None 0 0)])
    world0
  = (Val None,
     set_initialCount (<[8%nat := 1]> (<[7%nat := 1]> ∅)) world0).
Proof.
  apply (OnStartup_all_started
           (router [Reloadable (pool_of good_host);
                    Reloadable (pool 8 None 0 0)])
           (router [Reloadable (pool_of good_host)])
           (router [Reloadable (pool 8 None 0 0)])
           [Reloadable (pool_of good_host)] [Reloadable (pool 8 None 0 0)]
           world0).
  - reflexivity.
  - reflexivity.
  - reflexivity.
  - exists loading. split; reflexivity.
Defined.

Lemma OnShutdown_first_failure_witness :
  OnShutdown
    (router [Reloadable (pool 9 None 0 0); Reloadable (pool_of good_host)])
    loading
  = (Val (Some (errOther "cannot stop")), loading).
Proof.
  destruct (OnShutdown_first_failure
              (router [Reloadable (pool 9 None 0 0);
                       Reloadable (pool_of good_host)])
              [] [Reloadable (pool_of good_host)]
              (Reloadable (pool 9 None 0 0)) (errOther "cannot stop")
              loading loading loading)
    as (Hfail & _).
  - reflexivity.
  - reflexivity.
  - reflexivity.
  - exact Hfail.
Defined.

Lemma latch_is_set_only_when_loaded_witness :
  (urlInitialInProgress (serving good_host) world0).1 = Val false /\
  initialFinished (urlInitialInProgress (serving good_host) world0).2 = 1.
Proof.
  destruct (latch_is_set_only_when_loaded (serving good_host) world0
              (set_initialFinished 1 world0) (Val false))
    as (_ & _ & Hset & _).
  - reflexivity.
  - simpl. lia.
  - split; [reflexivity | exact Hset].
Defined.

Lemma foreign_pool_panics_witness :
  exists msg,
    ServeDNS 3
      (router [Foreign (String.eqb "mail.example.org");
               Foreign (String.eqb "www.example.org");
               Reloadable (pool_of good_host)])
      query world0
    = Some (Panicked msg, world0).
Proof.
  apply (foreign_pool_panics 3
           (router [Foreign (String.eqb "mail.example.org");
                    Foreign (String.eqb "www.example.org");
                    Reloadable (pool_of good_host)])
           [Foreign (String.eqb "mail.example.org")]
           [Reloadable (pool_of good_host)]
           (String.eqb "www.example.org") query world0).
  - reflexivity.
  - repeat constructor.
  - reflexivity.
Defined.
